(** * Moostaka: the route matching of [navigate] and the registration of routes

    A shallow embedding of [src/src/moostaka.js]: the methods [navigate]
    (lines 68-128) and [route] (lines 237-239) of the class [Moostaka] and the
    helper [lowerCase] (lines 242-247), followed by the properties of the
    routing algorithm.

    The methods run in a small state-and-exception monad.  The state holds the
    router object ([this]) and the log of the calls that leave the router:
    the [onnavigate] hook, the route handlers and [history.pushState].  A
    method call on a value that has no such method raises a [TypeError], as in
    JavaScript. *)

From Stdlib Require Import Ascii String.
From stdpp Require Import base option list strings gmap.

Local Open Scope string_scope.
Local Open Scope list_scope.

(** ** JavaScript values and built-ins *)

(** The values a pathname or a path segment can be: a string, or one of the
    two absent values.  [hashParts[x]] is [undefined] past the end of the
    array. *)
Inductive jsval : Type :=
  | VUndefined
  | VNull
  | VStr (s : string).

#[global] Instance jsval_eq_dec : EqDecision jsval.
Proof. solve_decision. Defined.

Inductive exn : Type :=
  | TypeError (message : string).

(** [if(value)]: the empty string, [undefined] and [null] are falsy. *)
Definition truthy (v : jsval) : bool :=
  match v with
  | VStr s => negb (String.eqb s "")
  | VUndefined | VNull => false
  end.

(** [s.substring(indexStart, indexEnd)] and [s.substring(indexStart)]: both
    indices are clamped to the length and swapped when out of order. *)
Definition substring (s : string) (indexStart : nat) (indexEnd : option nat) : string :=
  let len := String.length s in
  let a := indexStart `min` len in
  let b := default len indexEnd `min` len in
  String.substring (a `min` b) ((a `max` b) - (a `min` b)) s.

(** [s.split(sep)] for a separator of one character: the segments between the
    occurrences of [sep]; a string without [sep] (the empty one too) is its
    own single segment. *)
Fixpoint split (s : string) (sep : ascii) : list string :=
  match s with
  | EmptyString => [EmptyString]
  | String c s' =>
      if Ascii.eqb c sep then EmptyString :: split s' sep
      else match split s' sep with
           | [] => [String c EmptyString]
           | seg :: segs => String c seg :: segs
           end
  end.

(** [arr[x]] on an array of strings. *)
Definition index (arr : list string) (x : nat) : jsval :=
  match arr !! x with
  | Some s => VStr s
  | None => VUndefined
  end.

(** The pathname minus its first character, whatever that character is: the
    words of the specification for what a regular expression is tested
    against, to compare with the [pathname.substring(1)] of the source. *)
Definition withoutFirstCharacter (s : string) : string :=
  match s with
  | EmptyString => EmptyString
  | String _ s' => s'
  end.

(** ** The router *)

Section Router.

(** Functions of the host program (route handlers, the [onnavigate] hook)
    and [RegExp] objects are opaque to the router: a call of a function is
    recorded in the log, and what the function does is not modelled.  Two
    built-ins are parameters: [String.prototype.toLowerCase], and whether
    [String.prototype.match] finds a match of a regular expression, taken
    as a function of the expression and the string (an expression with the
    sticky flag, whose matches depend on its [lastIndex], is left out). *)
Context {Fn R : Type}.
Variable toLowerCase : string → string.
Variable regexMatch : R → string → bool.

(** [typeof pattern === 'string'] or not. *)
Inductive Pattern : Type :=
  | PString (pattern : string)
  | PRegExp (pattern : R).

(** [{pattern: pattern, handler: handler}] *)
Record Route : Type := mkRoute {
  pattern : Pattern;
  handler : Fn
}.

Record Moostaka : Type := mkMoostaka {
  routes : list Route;
  defaultRoute : string;
  viewLocation : string;
  onnavigate : option Fn
}.

(** What a handler is called with: the [params] object of a string route,
    as the map of its own properties, from parameter names to path segments,
    or the object [{'hash': segments}] of a regular-expression route. *)
Inductive argument : Type :=
  | Params (params : gmap string jsval)
  | Hash (hash : list string).

Inductive event : Type :=
  | OnNavigate (hook : Fn) (pathname : jsval)
  | Handler (handler : Fn) (arg : argument)
  | PushState (state title url : string).

Record world : Type := mkWorld {
  this : Moostaka;
  log : list event
}.

Inductive res (A : Type) : Type :=
  | Ok (a : A)
  | Throw (e : exn).
Arguments Ok {A} a.
Arguments Throw {A} e.

Definition M (A : Type) : Type := world → res A * world.

Definition ret {A} (a : A) : M A := λ w, (Ok a, w).

Definition bind {A B} (m : M A) (k : A → M B) : M B :=
  λ w, match m w with
       | (Ok a, w') => k a w'
       | (Throw e, w') => (Throw e, w')
       end.

Definition throw {A} (e : exn) : M A := λ w, (Throw e, w).

Definition getThis : M Moostaka := λ w, (Ok (this w), w).

Definition setRoutes (rs : list Route) : M () :=
  λ w, (Ok (),
        mkWorld (mkMoostaka rs (defaultRoute (this w)) (viewLocation (this w))
                            (onnavigate (this w)))
                (log w)).

Definition emit (e : event) : M () :=
  λ w, (Ok (), mkWorld (this w) (log w ++ [e])).

Notation "'let*' x ':=' m 'in' k" := (bind m (λ x, k))
  (at level 10, x pattern, m at level 200, k at level 200, only parsing).

(** Method calls on a value: only strings have these methods. *)
Definition callToLowerCase (v : jsval) : M jsval :=
  match v with
  | VStr s => ret (VStr (toLowerCase s))
  | _ => throw (TypeError "value.toLowerCase is not a function")
  end.

Definition callSplit (v : jsval) (sep : ascii) : M (list string) :=
  match v with
  | VStr s => ret (split s sep)
  | _ => throw (TypeError "pathname.split is not a function")
  end.

Definition callSubstring (v : jsval) (indexStart : nat) : M string :=
  match v with
  | VStr s => ret (substring s indexStart None)
  | _ => throw (TypeError "pathname.substring is not a function")
  end.

(** Lines 242-247. *)
Definition lowerCase (value : jsval) : M jsval :=
  if truthy value then callToLowerCase value else ret value.

(** [params[partName] = value], line 106, on the plain object [params].  For
    every name but one the object gets the own property [partName], or has
    its value replaced.  [__proto__] is no property of the object: the
    assignment reaches the setter that [Object.prototype] has for it, and
    the setter ignores a value that is not an object, as a path segment and
    [undefined] are (and for [null], which [hashParts[x]] never is, it
    changes the prototype and adds no own property either). *)
Definition assign (params : gmap string jsval) (partName : string) (value : jsval)
    : gmap string jsval :=
  if bool_decide (partName = "__proto__") then params
  else <[partName := value]> params.

(** The inner loop of [navigate], lines 87-108.  [rest] is the part of
    [routeParts] from index [x] on, so its head is [routeParts[x]]; the
    result is the value of [thisRouteMatch] and of [params] when the loop is
    left, at the end of [routeParts] or by the [break]. *)
Fixpoint segmentLoop (routeParts hashParts rest : list string) (x : nat)
    (thisRouteMatch : bool) (params : gmap string jsval)
    : M (bool * gmap string jsval) :=
  match rest with
  | [] => ret (thisRouteMatch, params)
  | part :: rest' =>
      if bool_decide (part = "*") then ret (thisRouteMatch, params)
      else
        let thisRouteMatch :=
          if bool_decide (length routeParts ≠ length hashParts) then false
          else thisRouteMatch in
        if bool_decide (substring part 0 (Some 1) ≠ ":") then
          let* a := lowerCase (VStr part) in
          let* b := lowerCase (index hashParts x) in
          let thisRouteMatch :=
            if bool_decide (a ≠ b) then false else thisRouteMatch in
          segmentLoop routeParts hashParts rest' (S x) thisRouteMatch params
        else
          let partName := substring part 1 None in
          segmentLoop routeParts hashParts rest' (S x) thisRouteMatch
            (assign params partName (index hashParts x))
  end.

(** How an iteration of the loop over the routes ends: with the [return] of
    [navigate], or by going on to the next route. *)
Inductive flow : Type :=
  | Return
  | Next.

(** The body of the loop over the routes, lines 80-121, for the route
    [this.routes[i]].  [routeMatch] is the variable of line 78. *)
Definition tryRoute (route : Route) (pathname : jsval) (routeMatch : bool)
    : M (flow * bool) :=
  let params : gmap string jsval := ∅ in
  let* hashParts := callSplit pathname "/" in
  match pattern route with
  | PString pat =>
      let routeParts := split pat "/" in
      let* (thisRouteMatch, params) :=
        segmentLoop routeParts hashParts routeParts 0 true params in
      if thisRouteMatch then
        let routeMatch := true in
        let* _ := emit (Handler (handler route) (Params params)) in
        ret (Return, routeMatch)
      else ret (Next, routeMatch)
  | PRegExp re =>
      let* tail := callSubstring pathname 1 in
      if regexMatch re tail then
        let* tail' := callSubstring pathname 1 in
        let* _ := emit (Handler (handler route) (Hash (split tail' "/"))) in
        ret (Return, routeMatch)
      else ret (Next, routeMatch)
  end.

(** The loop over the routes, lines 79-122: [todo] are the routes from
    index [i] on. *)
Fixpoint routeLoop (todo : list Route) (pathname : jsval) (routeMatch : bool)
    : M (flow * bool) :=
  match todo with
  | [] => ret (Next, routeMatch)
  | route :: todo' =>
      let* (fl, routeMatch) := tryRoute route pathname routeMatch in
      match fl with
      | Return => ret (Return, routeMatch)
      | Next => routeLoop todo' pathname routeMatch
      end
  end.

(** Lines 74-76, [if(!pathname || pathname === '/')]: the pathname that is
    matched against the routes. *)
Definition orDefault (self : Moostaka) (pathname : jsval) : jsval :=
  if negb (truthy pathname) || bool_decide (pathname = VStr "/")
  then VStr (defaultRoute self) else pathname.

(** Lines 68-128. *)
Definition navigate (pathname : jsval) : M () :=
  let* self := getThis in
  let* _ :=
    match onnavigate self with
    | Some hook => emit (OnNavigate hook pathname)
    | None => ret ()
    end in
  let pathname := orDefault self pathname in
  let routeMatch := false in
  let* (fl, routeMatch) := routeLoop (routes self) pathname routeMatch in
  match fl with
  | Return => ret ()
  | Next =>
      if bool_decide (routeMatch = false)
      then emit (PushState "data" "home" (defaultRoute self))
      else ret ()
  end.

(** Lines 237-239: [this.routes.push({pattern: pattern, handler: handler})]. *)
Definition route (pat : Pattern) (h : Fn) : M () :=
  let* self := getThis in
  setRoutes (routes self ++ [mkRoute pat h]).

(** *** Vocabulary of the properties *)

(** What one iteration of the loop over the routes does with a route: it
    calls the handler with [arg] and [navigate] returns, or it goes on to
    the next route and nothing leaves the router. *)
Definition accepts (r : Route) (pathname : jsval) (arg : argument) : Prop :=
  ∀ routeMatch w, ∃ routeMatch',
    tryRoute r pathname routeMatch w
    = (Ok (Return, routeMatch'),
       mkWorld (this w) (log w ++ [Handler (handler r) arg])).

Definition declines (r : Route) (pathname : jsval) : Prop :=
  ∀ routeMatch w, tryRoute r pathname routeMatch w = (Ok (Next, routeMatch), w).

(** The call of the [onnavigate] hook, lines 69-71. *)
Definition hookLog (self : Moostaka) (pathname : jsval) : list event :=
  match onnavigate self with
  | Some hook => [OnNavigate hook pathname]
  | None => []
  end.

Definition handlerCalls (l : list event) : list (Fn * argument) :=
  omap (λ e, match e with Handler h a => Some (h, a) | _ => None end) l.

Definition isHookCall (e : event) : bool :=
  match e with OnNavigate _ _ => true | _ => false end.

(** The log without the calls of the hook. *)
Definition routing (l : list event) : list event :=
  List.filter (λ e, negb (isHookCall e)) l.

(** A pattern segment [:name] and its name. *)
Definition isParam (part : string) : Prop := substring part 0 (Some 1) = ":".
Definition paramName (part : string) : string := substring part 1 None.

(** The pattern segments the inner loop visits: those before the first [*]. *)
Fixpoint beforeWildcard (parts : list string) : list string :=
  match parts with
  | [] => []
  | part :: parts' =>
      if bool_decide (part = "*") then [] else part :: beforeWildcard parts'
  end.

(** Equality of two segments up to case. *)
Definition sameIgnoringCase (a b : string) : Prop := toLowerCase a = toLowerCase b.

(** A literal pattern segment against the path segment at its index. *)
Definition literalMatches (part : string) (hashParts : list string) (x : nat) : Prop :=
  ∃ seg, hashParts !! x = Some seg ∧ sameIgnoringCase part seg.

(** *** The inner loop as two folds, for the proofs *)

Definition lowerCaseOf (value : jsval) : jsval :=
  match value with
  | VStr s => if String.eqb s "" then value else VStr (toLowerCase s)
  | _ => value
  end.

Fixpoint checks (routeParts hashParts rest : list string) (x : nat) : bool :=
  match rest with
  | [] => true
  | part :: rest' =>
      if bool_decide (part = "*") then true
      else
        bool_decide (length routeParts = length hashParts)
        && (bool_decide (isParam part)
            || bool_decide (lowerCaseOf (VStr part) = lowerCaseOf (index hashParts x)))
        && checks routeParts hashParts rest' (S x)
  end.

Fixpoint bindings (hashParts rest : list string) (x : nat)
    (params : gmap string jsval) : gmap string jsval :=
  match rest with
  | [] => params
  | part :: rest' =>
      if bool_decide (part = "*") then params
      else if bool_decide (isParam part)
      then bindings hashParts rest' (S x) (assign params (paramName part) (index hashParts x))
      else bindings hashParts rest' (S x) params
  end.

End Router.

Arguments Ok {A} a.
Arguments Throw {A} e.
Arguments Pattern : clear implicits.
Arguments Route : clear implicits.
Arguments Moostaka : clear implicits.
Arguments event : clear implicits.
Arguments world : clear implicits.
Arguments M : clear implicits.

(** ** A concrete host, for the examples *)

Module Demo.

(** [toLowerCase] on the letters A-Z. *)
Definition lowerAscii (c : ascii) : ascii :=
  let n := nat_of_ascii c in
  if ((65 <=? n) && (n <=? 90))%nat then ascii_of_nat (n + 32) else c.

Fixpoint toLowerCase (s : string) : string :=
  match s with
  | EmptyString => EmptyString
  | String c s' => String (lowerAscii c) (toLowerCase s')
  end.

(** Regular expressions that are matched against the whole string, as one
    anchored with [^] and [$] is, by derivatives. *)
Inductive regex : Type :=
  | RNone
  | REps
  | RChar (c : ascii)
  | RDigit
  | RSeq (a b : regex)
  | RAlt (a b : regex)
  | RStar (a : regex).

Fixpoint nullable (r : regex) : bool :=
  match r with
  | RNone | RChar _ | RDigit => false
  | REps | RStar _ => true
  | RSeq a b => nullable a && nullable b
  | RAlt a b => nullable a || nullable b
  end.

Definition isDigit (c : ascii) : bool :=
  let n := nat_of_ascii c in ((48 <=? n) && (n <=? 57))%nat.

Fixpoint deriv (c : ascii) (r : regex) : regex :=
  match r with
  | RNone | REps => RNone
  | RChar d => if Ascii.eqb c d then REps else RNone
  | RDigit => if isDigit c then REps else RNone
  | RSeq a b =>
      if nullable a then RAlt (RSeq (deriv c a) b) (deriv c b)
      else RSeq (deriv c a) b
  | RAlt a b => RAlt (deriv c a) (deriv c b)
  | RStar a => RSeq (deriv c a) (RStar a)
  end.

Fixpoint regexMatch (r : regex) (s : string) : bool :=
  match s with
  | EmptyString => nullable r
  | String c s' => regexMatch (deriv c r) s'
  end.

Fixpoint literal (s : string) : regex :=
  match s with
  | EmptyString => REps
  | String c s' => RSeq (RChar c) (literal s')
  end.

(** [/^post-(\d+)$/] *)
Definition postRegex : regex := RSeq (literal "post-") (RSeq RDigit (RStar RDigit)).

Inductive handlerName : Type := H1 | H2.

(** A router just constructed (lines 17-21) that got the routes [rs]. *)
Definition app (rs : list (Route handlerName regex)) : world handlerName regex :=
  mkWorld (mkMoostaka rs "/" "/views" None) [].

Definition go (pathname : string) (rs : list (Route handlerName regex)) :=
  navigate toLowerCase regexMatch (VStr pathname) (app rs).

End Demo.

(** ** More built-ins *)

(** [s.startsWith(searchString)] *)
Fixpoint startsWith (s searchString : string) {struct searchString} : bool :=
  match searchString, s with
  | EmptyString, _ => true
  | String _ _, EmptyString => false
  | String a searchString', String b s' => Ascii.eqb a b && startsWith s' searchString'
  end.

(** [s] without its first [n] characters. *)
Fixpoint dropChars (n : nat) (s : string) : string :=
  match n, s with
  | 0, _ => s
  | S _, EmptyString => EmptyString
  | S n', String _ s' => dropChars n' s'
  end.

(** [s.replace(searchValue, replaceValue)] for a string [searchValue]: the
    first occurrence, if there is one, is replaced.  [replaceValue] is put in
    as it is, which is what JavaScript does for one without [$]; the source
    only passes the empty string. *)
Fixpoint replace (s searchValue replaceValue : string) : string :=
  if startsWith s searchValue
  then replaceValue +:+ dropChars (String.length searchValue) s
  else match s with
       | EmptyString => EmptyString
       | String c s' => String c (replace s' searchValue replaceValue)
       end.

(** [s.indexOf(searchValue)], [None] for [-1]: where the first occurrence is.
    Not called by the source; the properties of [replace] are stated with
    it. *)
Fixpoint indexOf (s searchValue : string) : option nat :=
  if startsWith s searchValue then Some 0
  else match s with
       | EmptyString => None
       | String _ s' => S <$> indexOf s' searchValue
       end.

(** [parts.join(sep)].  Not called by the source; it states what the [hash]
    array of a handler holds. *)
Fixpoint join (parts : list string) (sep : string) : string :=
  match parts with
  | [] => EmptyString
  | part :: parts' =>
      match parts' with
      | [] => part
      | _ :: _ => part +:+ sep +:+ join parts' sep
      end
  end.

(** ** The page: construction of the router and its listeners *)

Section Page.

Context {Fn R : Type}.
Variable toLowerCase : string → string.
Variable regexMatch : R → string → bool.

Notation "'let*' x ':=' m 'in' k" := (bind m (λ x, k))
  (at level 10, x pattern, m at level 200, k at level 200, only parsing).

(** The [opts] dictionary of the constructor: a key is [None] when
    [typeof opts.key] is ['undefined']. *)
Record Options : Type := mkOptions {
  optDefaultRoute : option string;
  optViewLocation : option string
}.

(** Lines 16-32: the router object the constructor builds, with what it
    sends to [history] in the log.  [opts] is [None] for a falsy argument;
    [locationPathname] is [location.pathname].  The constructor goes on to
    install the three listeners below (lines 34-59); it defines no
    [onnavigate]. *)
Definition constructor (opts : option Options) (locationPathname : string)
    : world Fn R :=
  let routes : list (Route Fn R) := [] in
  let defaultRoute := "/" in
  let viewLocation := "/views" in
  let log : list (event Fn) :=
    if bool_decide (locationPathname = "")
    then [PushState "data" defaultRoute defaultRoute] else [] in
  let '(defaultRoute, viewLocation) :=
    match opts with
    | Some opts =>
        (match optDefaultRoute opts with Some d => d | None => defaultRoute end,
         match optViewLocation opts with Some v => v | None => viewLocation end)
    | None => (defaultRoute, viewLocation)
    end in
  mkWorld (mkMoostaka routes defaultRoute viewLocation None) log.

(** What the click listener reads of [event.target]: whether it matches
    ['a[href], a[href] *'], and its [href], [host] and [textContent].  An
    element inside a link matches and has no [href] of its own. *)
Record clickTarget : Type := mkTarget {
  matchesLink : bool;
  href : jsval;
  host : string;
  textContent : string
}.

Definition callReplace (v : jsval) (searchValue replaceValue : string) : M Fn R string :=
  match v with
  | VStr s => ret (replace s searchValue replaceValue)
  | _ => throw (TypeError "href.replace is not a function")
  end.

(** Lines 36-49, the listener of [click].  The result is
    [event.defaultPrevented] when the listener returns. *)
Definition onClick (target : clickTarget) : M Fn R bool :=
  if matchesLink target then
    let defaultPrevented := true in
    if truthy (href target) then
      let* s := callReplace (href target) "http://" "" in
      let url := replace (replace s "https://" "") (host target) "" in
      let* _ := emit (PushState "data" (textContent target) url) in
      let* _ := navigate toLowerCase regexMatch (VStr url) in
      ret defaultPrevented
    else
      let* self := getThis in
      let* _ := emit (PushState "data" "home" (defaultRoute self)) in
      let* self := getThis in
      let* _ := navigate toLowerCase regexMatch (VStr (defaultRoute self)) in
      ret defaultPrevented
  else ret false.

(** Lines 52-54 and 57-59, [window.onpopstate] and [window.onload]. *)
Definition onPopState (locationPathname : string) : M Fn R () :=
  navigate toLowerCase regexMatch (VStr locationPathname).

Definition onLoad (locationPathname : string) : M Fn R () :=
  navigate toLowerCase regexMatch (VStr locationPathname).

End Page.

Arguments Options : clear implicits.

(** ** Views: [render] and [getHtml] *)

Section Views.

(** [Node] are the elements of the document and [P] the values given as
    [params] to the templates.  Of the host: [Mustache.render(template,
    params)] as a function of [Mustache.tags], the template and the
    parameters; the empty object [{}]; [document.querySelector]; and
    [window.markdownit], when it is defined, as the function from a text to
    [window.markdownit().render(text)]. *)
Context {Fn R Node P : Type}.
Variable mustacheRender : list string → string → P → string.
Variable emptyObject : P.
Variable querySelector : string → option Node.
Variable markdownit : option (string → string).

(** [element instanceof HTMLElement], or a selector. *)
Inductive elementArg : Type :=
  | IsElement (node : Node)
  | NotElement (selector : string).

(** [callback instanceof Function], or anything else. *)
Inductive callable : Type :=
  | IsFunction (f : Fn)
  | NotFunction.

(** An [options] object: a key is [None] when it is undefined. *)
Record viewOptions : Type := mkViewOptions {
  tags : option (list string);
  append : option bool;
  markdown : option bool
}.

(** [{}] *)
Definition noOptions : viewOptions := mkViewOptions None None None.

Inductive effect : Type :=
  | Fetch (url : string)
  | RemoveChildren (destination : Node)
  | SetInnerHTML (destination : Node) (html : string)
  | AppendInnerHTML (destination : Node) (html : string)
  | CallBack (callback : Fn) (html : option string).

(** What [render] and [getHtml] read and write besides the router: the
    global [Mustache.tags], the [options] objects, which the caller keeps a
    reference to, and the effects on the network, the document and the
    callbacks. *)
Record browser : Type := mkBrowser {
  mustacheTags : list string;
  objects : gmap nat viewOptions;
  effects : list effect
}.

Definition V (A : Type) : Type := browser → res A * browser.

Definition vret {A} (a : A) : V A := λ b, (Ok a, b).

Definition vbind {A B} (m : V A) (k : A → V B) : V B :=
  λ b, match m b with
       | (Ok a, b') => k a b'
       | (Throw e, b') => (Throw e, b')
       end.

Definition vthrow {A} (e : exn) : V A := λ b, (Throw e, b).

Notation "'let+' x ':=' m 'in' k" := (vbind m (λ x, k))
  (at level 10, x pattern, m at level 200, k at level 200, only parsing).

Definition perform (e : effect) : V () :=
  λ b, (Ok (), mkBrowser (mustacheTags b) (objects b) (effects b ++ [e])).

Definition getTags : V (list string) := λ b, (Ok (mustacheTags b), b).

Definition setTags (t : list string) : V () :=
  λ b, (Ok (), mkBrowser t (objects b) (effects b)).

(** The object a reference points to. *)
Definition readObject (l : nat) : V viewOptions :=
  λ b, (Ok (default noOptions (objects b !! l)), b).

Definition writeObject (l : nat) (o : viewOptions) : V () :=
  λ b, (Ok (), mkBrowser (mustacheTags b) (<[l := o]> (objects b)) (effects b)).

(** [options = {}]: a new object. *)
Definition newObject : V nat :=
  λ b, let l := fresh (dom (objects b)) in
       (Ok l, mkBrowser (mustacheTags b) (<[l := noOptions]> (objects b)) (effects b)).

(** Lines 167-179, the function [render] gives to the second [then]: what is
    done with the text of the response when it arrives.  [destination],
    [params], [options] and [callback] are the variables of [render] it
    closes over. *)
Definition renderArrived (destination : option Node) (params : P) (options : nat)
    (callback : callable) (template : string) : V () :=
  let+ o := readObject options in
  let+ _ :=
    if bool_decide (append o = Some true) then
      match destination with
      | Some node =>
          let+ t := getTags in
          perform (AppendInnerHTML node (mustacheRender t template params))
      | None => vthrow (TypeError "destination is null")
      end
    else
      match destination with
      | Some node =>
          let+ _ := perform (RemoveChildren node) in
          let+ t := getTags in
          perform (SetInnerHTML node (mustacheRender t template params))
      | None => vthrow (TypeError "destination is null")
      end in
  match callback with
  | IsFunction f => perform (CallBack f None)
  | NotFunction => vret ()
  end.

(** Lines 144-180.  [params] and [options] are [None] for a falsy argument,
    [options] is a reference otherwise.  The result is the function that
    waits for the template. *)
Definition render (self : Moostaka Fn R) (element : elementArg) (view : string)
    (params : option P) (options : option nat) (callback : callable)
    : V (string → V ()) :=
  let destination :=
    match element with
    | IsElement node => Some node
    | NotElement selector => querySelector selector
    end in
  let params := match params with Some p => p | None => emptyObject end in
  let+ options := match options with Some l => vret l | None => newObject end in
  let+ o := readObject options in
  let+ _ := match tags o with
            | None => setTags ["{{"; "}}"]
            | Some _ => vret ()
            end in
  let+ o := readObject options in
  let+ _ := match append o with
            | None => writeObject options (mkViewOptions (tags o) (Some false) (markdown o))
            | Some _ => vret ()
            end in
  let url := viewLocation self +:+ "/" +:+ replace view ".mst" "" +:+ ".mst" in
  let+ _ := perform (Fetch url) in
  vret (renderArrived destination params options callback).

(** Lines 219-226, the function [getHtml] gives to the second [then]. *)
Definition getHtmlArrived (params : P) (options : nat) (f : Fn) (template : string)
    : V () :=
  let+ o := readObject options in
  match markdownit with
  | Some md =>
      if bool_decide (markdown o = Some true) then
        let+ t := getTags in
        perform (CallBack f (Some (mustacheRender t (md template) params)))
      else
        let+ t := getTags in
        perform (CallBack f (Some (mustacheRender t template params)))
  | None =>
      let+ t := getTags in
      perform (CallBack f (Some (mustacheRender t template params)))
  end.

(** Lines 197-227. *)
Definition getHtml (self : Moostaka Fn R) (view : string)
    (params : option P) (options : option nat) (callback : callable)
    : V (string → V ()) :=
  match callback with
  | NotFunction => vthrow (TypeError "callback is not a function")
  | IsFunction f =>
      let params := match params with Some p => p | None => emptyObject end in
      let+ options := match options with Some l => vret l | None => newObject end in
      let+ o := readObject options in
      let+ _ := match tags o with
                | None => setTags ["{{"; "}}"]
                | Some t => setTags t
                end in
      let+ o := readObject options in
      let+ _ := match markdown o with
                | None => writeObject options (mkViewOptions (tags o) (append o) (Some false))
                | Some _ => vret ()
                end in
      let url := viewLocation self +:+ "/" +:+ replace view ".mst" "" +:+ ".mst" in
      let+ _ := perform (Fetch url) in
      vret (getHtmlArrived params options f)
  end.

(** The address both fetch the template of [view] from: the expression of
    lines 164 and 216. *)
Definition templateUrl (self : Moostaka Fn R) (view : string) : string :=
  viewLocation self +:+ "/" +:+ replace view ".mst" "" +:+ ".mst".

End Views.

Arguments effect : clear implicits.
Arguments browser : clear implicits.
Arguments V : clear implicits.
Arguments elementArg : clear implicits.
Arguments callable : clear implicits.

(** A concrete host for the views. *)

Module DemoViews.

(** A stand-in for Mustache that shows the tags it is given. *)
Definition mustacheRender (t : list string) (template : string) (params : list string)
    : string :=
  join t "," +:+ "|" +:+ template +:+ "|" +:+ join params ",".

(** A document with the one element [#content]. *)
Definition querySelector (selector : string) : option string :=
  if String.eqb selector "#content" then Some "content" else None.

Definition router : Moostaka Demo.handlerName Demo.regex :=
  mkMoostaka [] "/" "/views" None.

Definition start : browser Demo.handlerName string :=
  mkBrowser ["{{"; "}}"] ∅ [].

(** An options object [{tags: ['<%', '%>']}], and a page that holds it. *)
Definition ownTags : viewOptions := mkViewOptions (Some ["<%"; "%>"]) None None.

Definition startWithOptions : browser Demo.handlerName string :=
  mkBrowser ["{{"; "}}"] {[0 := ownTags]} [].

End DemoViews.

(** ** Tactics for goals over known segments *)

(** A goal [∀ x part, parts !! x = Some part → ...] over a list of known
    segments, index by index. *)
Ltac each_segment tac :=
  let x := fresh "x" in
  let part := fresh "part" in
  let Hx := fresh "Hx" in
  intros x part Hx;
  repeat (destruct x as [|x]; [vm_compute in Hx; injection Hx as <-; tac|]);
  vm_compute in Hx; discriminate Hx.

Ltac no_wildcard := apply (bool_decide_unpack _); vm_compute; exact I.

Ltac literal_segment :=
  first [ intros _; eexists; split; reflexivity
        | let Hp := fresh in intros Hp; exfalso; apply Hp; reflexivity ].

(** ** Facts about the built-ins *)

Lemma split_not_nil s sep : split s sep ≠ [].
Proof. induction s as [|c s IH]; simpl; [done|]. by repeat case_match. Qed.

Lemma string_substring_all s : String.substring 0 (String.length s) s = s.
Proof. induction s as [|c s IH]; simpl; [done|]. by rewrite IH. Qed.

Lemma substring_first_empty : substring "" 0 (Some 1) = "".
Proof. reflexivity. Qed.

Lemma substring_first_cons c s : substring (String c s) 0 (Some 1) = String c "".
Proof. unfold substring. simpl. by destruct s. Qed.

Lemma substring_tail_empty : substring "" 1 None = "".
Proof. reflexivity. Qed.

Lemma substring_tail_cons c s : substring (String c s) 1 None = s.
Proof.
  unfold substring. simpl String.length. simpl default.
  replace (1 `min` S (String.length s)) with 1 by lia.
  replace (S (String.length s) `min` S (String.length s)) with (S (String.length s)) by lia.
  replace (1 `min` S (String.length s)) with 1 by lia.
  replace (1 `max` S (String.length s) - 1) with (String.length s) by lia.
  simpl. apply string_substring_all.
Qed.

Lemma index_lookup (arr : list string) x seg : arr !! x = Some seg → index arr x = VStr seg.
Proof. unfold index. by intros ->. Qed.

Lemma isParam_colon name : isParam (String ":" name).
Proof. unfold isParam. apply substring_first_cons. Qed.

Lemma isParam_inv part : isParam part → ∃ name, part = String ":" name.
Proof.
  unfold isParam. destruct part as [|c name].
  - by rewrite substring_first_empty.
  - rewrite substring_first_cons. intros [= ->]. by exists name.
Qed.

Lemma paramName_colon name : paramName (String ":" name) = name.
Proof. unfold paramName. apply substring_tail_cons. Qed.

Lemma beforeWildcard_no_wildcard (parts : list string) :
  "*" ∉ parts → beforeWildcard parts = parts.
Proof.
  induction parts as [|part parts IH]; simpl; [done|].
  intros Hn. apply not_elem_of_cons in Hn as [Hne Hn].
  rewrite bool_decide_eq_false_2 by done. by rewrite IH.
Qed.

Lemma beforeWildcard_nil_iff (parts : list string) :
  beforeWildcard parts = [] ↔ parts = [] ∨ parts !! 0 = Some "*".
Proof.
  destruct parts as [|part parts]; simpl; [naive_solver|].
  destruct (decide (part = "*")) as [->|Hne].
  - rewrite bool_decide_eq_true_2 by done. naive_solver.
  - rewrite bool_decide_eq_false_2 by done. split; [done|]. intros [?|?]; congruence.
Qed.

(** ** Facts about the router *)

Section RouterFacts.

Context {Fn R : Type}.
Variable toLowerCase : string → string.
Variable regexMatch : R → string → bool.

#[local] Arguments lowerCaseOf : simpl never.
#[local] Arguments index : simpl never.

#[local] Abbreviation M := (M Fn R).
#[local] Abbreviation world := (world Fn R).
#[local] Abbreviation Route := (Route Fn R).
#[local] Abbreviation Moostaka := (Moostaka Fn R).
#[local] Abbreviation lowerCase := (@lowerCase Fn R toLowerCase).
#[local] Abbreviation lowerCaseOf := (lowerCaseOf toLowerCase).
#[local] Abbreviation segmentLoop := (@segmentLoop Fn R toLowerCase).
#[local] Abbreviation checks := (checks toLowerCase).
#[local] Abbreviation tryRoute := (tryRoute toLowerCase regexMatch).
#[local] Abbreviation routeLoop := (routeLoop toLowerCase regexMatch).
#[local] Abbreviation navigate := (navigate toLowerCase regexMatch).
#[local] Abbreviation accepts := (accepts toLowerCase regexMatch).
#[local] Abbreviation declines := (declines toLowerCase regexMatch).
#[local] Abbreviation sameIgnoringCase := (sameIgnoringCase toLowerCase).
#[local] Abbreviation literalMatches := (literalMatches toLowerCase).

(** *** The monad *)

Lemma bind_ok {A B} (m : M A) (k : A → M B) w a w' :
  m w = (Ok a, w') → bind m k w = k a w'.
Proof. unfold bind. by intros ->. Qed.

Lemma world_eta (w : world) : mkWorld (this w) (log w) = w.
Proof. by destruct w. Qed.

(** *** [lowerCase] and the inner loop *)

Lemma lowerCase_run value (w : world) : lowerCase value w = (Ok (lowerCaseOf value), w).
Proof.
  unfold lowerCase, lowerCaseOf, truthy.
  destruct value as [| |s]; try done.
  by destruct (String.eqb s "").
Qed.

Lemma segmentLoop_run routeParts hashParts rest x thisRouteMatch params (w : world) :
  segmentLoop routeParts hashParts rest x thisRouteMatch params w
  = (Ok (thisRouteMatch && checks routeParts hashParts rest x,
         bindings hashParts rest x params), w).
Proof.
  revert x thisRouteMatch params.
  induction rest as [|part rest IH]; intros x ok params; simpl.
  { by rewrite andb_true_r. }
  destruct (bool_decide (part = "*")); [by rewrite andb_true_r|].
  unfold isParam at 1 2.
  rewrite !bool_decide_not.
  destruct (bool_decide (substring part 0 (Some 1) = ":")); simpl.
  - rewrite IH. do 2 f_equal.
    destruct (bool_decide (length routeParts = length hashParts)); simpl; [done|].
    by rewrite andb_false_r.
  - rewrite (bind_ok _ _ _ _ _ (lowerCase_run _ _)).
    rewrite (bind_ok _ _ _ _ _ (lowerCase_run _ _)).
    rewrite IH, !bool_decide_not. do 2 f_equal.
    destruct (bool_decide (length routeParts = length hashParts)),
      (bool_decide (lowerCaseOf (VStr part) = lowerCaseOf (index hashParts x)));
      simpl; rewrite ?andb_false_r; done.
Qed.

(** *** One route *)

Lemma tryRoute_string (r : Route) pat p routeMatch (w : world) :
  pattern r = PString pat →
  tryRoute r (VStr p) routeMatch w
  = if checks (split pat "/") (split p "/") (split pat "/") 0
    then (Ok (Return, true),
          mkWorld (this w)
            (log w ++ [Handler (handler r)
                         (Params (bindings (split p "/") (split pat "/") 0 ∅))]))
    else (Ok (Next, routeMatch), w).
Proof.
  intros Hpat. unfold tryRoute. simpl. unfold bind at 1. simpl.
  rewrite Hpat. unfold bind at 1. rewrite segmentLoop_run. simpl.
  by destruct (checks _ _ _ _).
Qed.

Lemma tryRoute_regexp (r : Route) re p routeMatch (w : world) :
  pattern r = PRegExp re →
  tryRoute r (VStr p) routeMatch w
  = if regexMatch re (substring p 1 None)
    then (Ok (Return, routeMatch),
          mkWorld (this w)
            (log w ++ [Handler (handler r) (Hash (split (substring p 1 None) "/"))]))
    else (Ok (Next, routeMatch), w).
Proof.
  intros Hpat. unfold tryRoute. simpl. unfold bind at 1. simpl.
  rewrite Hpat. unfold bind at 1. simpl.
  by destruct (regexMatch _ _).
Qed.

Lemma accepts_string (r : Route) pat p :
  pattern r = PString pat →
  checks (split pat "/") (split p "/") (split pat "/") 0 = true →
  accepts r (VStr p) (Params (bindings (split p "/") (split pat "/") 0 ∅)).
Proof.
  intros Hpat Hc rm w. exists true. by rewrite (tryRoute_string _ _ _ _ _ Hpat), Hc.
Qed.

Lemma declines_string (r : Route) pat p :
  pattern r = PString pat →
  checks (split pat "/") (split p "/") (split pat "/") 0 = false →
  declines r (VStr p).
Proof. intros Hpat Hc rm w. by rewrite (tryRoute_string _ _ _ _ _ Hpat), Hc. Qed.

Lemma accepts_regexp (r : Route) re p :
  pattern r = PRegExp re →
  regexMatch re (substring p 1 None) = true →
  accepts r (VStr p) (Hash (split (substring p 1 None) "/")).
Proof.
  intros Hpat Hm rm w. exists rm. by rewrite (tryRoute_regexp _ _ _ _ _ Hpat), Hm.
Qed.

Lemma declines_regexp (r : Route) re p :
  pattern r = PRegExp re →
  regexMatch re (substring p 1 None) = false →
  declines r (VStr p).
Proof. intros Hpat Hm rm w. by rewrite (tryRoute_regexp _ _ _ _ _ Hpat), Hm. Qed.

(** A route accepts a pathname or declines it, and not both. *)
Lemma accepts_or_declines (r : Route) p :
  (∃ arg, accepts r (VStr p) arg) ∨ declines r (VStr p).
Proof.
  destruct (pattern r) as [pat|re] eqn:Hpat.
  - destruct (checks (split pat "/") (split p "/") (split pat "/") 0) eqn:Hc.
    + left. eexists. by apply (accepts_string _ _ _ Hpat).
    + right. by apply (declines_string _ _ _ Hpat).
  - destruct (regexMatch re (substring p 1 None)) eqn:Hm.
    + left. eexists. by apply (accepts_regexp _ _ _ Hpat).
    + right. by apply (declines_regexp _ _ _ Hpat).
Qed.

Lemma accepts_not_declines (r : Route) pathname arg :
  accepts r pathname arg → ¬ declines r pathname.
Proof.
  intros Ha Hd.
  destruct (Ha false (mkWorld (mkMoostaka [] "" "" None) [])) as [rm' Hrun].
  rewrite Hd in Hrun. discriminate.
Qed.

Lemma accepts_functional (r : Route) pathname arg arg' :
  accepts r pathname arg → accepts r pathname arg' → arg = arg'.
Proof.
  intros Ha Ha'.
  destruct (Ha false (mkWorld (mkMoostaka [] "" "" None) [])) as [rm1 Hrun1].
  destruct (Ha' false (mkWorld (mkMoostaka [] "" "" None) [])) as [rm2 Hrun2].
  rewrite Hrun1 in Hrun2. simpl in Hrun2. by simplify_eq.
Qed.

(** *** The strict checks of the inner loop *)

Lemma checks_true_iff routeParts hashParts rest x :
  checks routeParts hashParts rest x = true ↔
    beforeWildcard rest = [] ∨
    (length routeParts = length hashParts ∧
     ∀ i part, beforeWildcard rest !! i = Some part →
       isParam part ∨ lowerCaseOf (VStr part) = lowerCaseOf (index hashParts (x + i))).
Proof.
  revert x. induction rest as [|part rest IH]; intros x; simpl.
  { split; [by left|done]. }
  destruct (decide (part = "*")) as [->|Hne].
  { rewrite bool_decide_eq_true_2 by done. split; [by left|done]. }
  rewrite bool_decide_eq_false_2 by done.
  rewrite !andb_true_iff, orb_true_iff, !bool_decide_eq_true, IH.
  split.
  - intros [[Hlen Hpart] Hrest]. right. split; [done|].
    intros [|i] part' Hi; simpl in Hi.
    + simplify_eq. by rewrite Nat.add_0_r.
    + destruct Hrest as [Hnil|[_ Hrest]].
      * rewrite Hnil in Hi. done.
      * replace (x + S i) with (S x + i) by lia. by apply Hrest.
  - intros [?|[Hlen Hall]]; [done|]. split; [split; [done|]|].
    + specialize (Hall 0 part eq_refl). by rewrite Nat.add_0_r in Hall.
    + right. split; [done|]. intros i part' Hi.
      replace (S x + i) with (x + S i) by lia. by apply Hall.
Qed.

(** *** The parameters collected by the inner loop *)

Lemma bindings_lookup_other hashParts rest x (params : gmap string jsval) k :
  (∀ part, part ∈ beforeWildcard rest → isParam part → paramName part ≠ k) →
  bindings hashParts rest x params !! k = params !! k.
Proof.
  revert x params. induction rest as [|part rest IH]; intros x params Hk; simpl; [done|].
  simpl in Hk. destruct (bool_decide (part = "*")); [done|].
  case_bool_decide as Hp.
  - rewrite IH.
    + unfold assign. case_bool_decide; [done|].
      apply lookup_insert_ne. apply Hk; [left|done].
    + intros part' Hin. apply Hk. by right.
  - apply IH. intros part' Hin. apply Hk. by right.
Qed.

Lemma bindings_lookup_last hashParts rest x (params : gmap string jsval) i part :
  beforeWildcard rest !! i = Some part →
  isParam part →
  paramName part ≠ "__proto__" →
  (∀ j part', i < j → beforeWildcard rest !! j = Some part' → isParam part' →
              paramName part' ≠ paramName part) →
  bindings hashParts rest x params !! paramName part = Some (index hashParts (x + i)).
Proof.
  intros Hi Hp Hproto Hlast.
  revert x params i Hi Hlast.
  induction rest as [|part0 rest IH]; intros x params i Hi Hlast; simpl in *; [done|].
  destruct (bool_decide (part0 = "*")); [done|].
  destruct i as [|i]; simpl in Hi.
  - simplify_eq. rewrite bool_decide_eq_true_2 by done.
    rewrite bindings_lookup_other.
    + rewrite Nat.add_0_r. unfold assign.
      rewrite bool_decide_eq_false_2 by done. apply lookup_insert_eq.
    + intros part' [j Hj]%list_elem_of_lookup Hp'.
      apply (Hlast (S j)); [lia|done|done].
  - replace (x + S i) with (S x + i) by lia.
    assert (∀ j part', i < j → beforeWildcard rest !! j = Some part' → isParam part' →
                       paramName part' ≠ paramName part) as Hlast'.
    { intros j part' Hj. apply (Hlast (S j)). lia. }
    case_bool_decide; by apply IH.
Qed.

(** *** The loop over the routes *)

Lemma routeLoop_declined before rest pathname routeMatch (w : world) :
  Forall (λ r, declines r pathname) before →
  routeLoop (before ++ rest) pathname routeMatch w = routeLoop rest pathname routeMatch w.
Proof.
  induction 1 as [|r before Hr _ IH]; simpl; [done|].
  unfold bind. by rewrite Hr.
Qed.

Lemma routeLoop_all_declined rs pathname routeMatch (w : world) :
  Forall (λ r, declines r pathname) rs →
  routeLoop rs pathname routeMatch w = (Ok (Next, routeMatch), w).
Proof.
  intros Hrs. rewrite <- (app_nil_r rs). by rewrite routeLoop_declined.
Qed.

Lemma routeLoop_accepting r rest pathname arg routeMatch (w : world) :
  accepts r pathname arg →
  ∃ routeMatch',
    routeLoop (r :: rest) pathname routeMatch w
    = (Ok (Return, routeMatch'), mkWorld (this w) (log w ++ [Handler (handler r) arg])).
Proof.
  intros Ha. destruct (Ha routeMatch w) as [rm' Hrun].
  exists rm'. simpl. unfold bind. by rewrite Hrun.
Qed.

(** *** [navigate] *)

Lemma orDefault_string (self : Moostaka) pathname : ∃ p, orDefault self pathname = VStr p.
Proof.
  unfold orDefault. destruct pathname as [| |s]; simpl; eauto.
  destruct (orb _ _); eauto.
Qed.

Lemma orDefault_absent (self : Moostaka) pathname :
  truthy pathname = false ∨ pathname = VStr "/" →
  orDefault self pathname = VStr (defaultRoute self).
Proof.
  unfold orDefault. intros [->| ->]; [done|].
  by rewrite bool_decide_eq_true_2, orb_true_r.
Qed.

Lemma orDefault_idem (self : Moostaka) pathname :
  orDefault self (orDefault self pathname) = orDefault self pathname.
Proof.
  unfold orDefault.
  destruct (negb (truthy pathname) || bool_decide (pathname = VStr "/")) eqn:Hc.
  - clear Hc. by destruct (orb _ _).
  - by rewrite Hc.
Qed.

Lemma navigate_run pathname (w : world) :
  navigate pathname w
  = match routeLoop (routes (this w)) (orDefault (this w) pathname) false
            (mkWorld (this w) (log w ++ hookLog (this w) pathname)) with
    | (Ok (Return, _), w') => (Ok (), w')
    | (Ok (Next, routeMatch), w') =>
        if bool_decide (routeMatch = false)
        then (Ok (), mkWorld (this w')
                       (log w' ++ [PushState "data" "home" (defaultRoute (this w))]))
        else (Ok (), w')
    | (Throw e, w') => (Throw e, w')
    end.
Proof.
  unfold navigate, hookLog. unfold bind at 1. simpl. unfold bind at 1.
  destruct (onnavigate (this w)) as [hook|]; simpl.
  - unfold bind. destruct (routeLoop _ _ _ _) as [[[[|] rm]|e] w']; simpl; try done.
    by destruct (bool_decide _).
  - rewrite app_nil_r, world_eta.
    unfold bind. destruct (routeLoop _ _ _ _) as [[[[|] rm]|e] w']; simpl; try done.
    by destruct (bool_decide _).
Qed.

Lemma navigate_accepting before r after arg pathname (w : world) :
  routes (this w) = before ++ r :: after →
  Forall (λ r', declines r' (orDefault (this w) pathname)) before →
  accepts r (orDefault (this w) pathname) arg →
  navigate pathname w
  = (Ok (), mkWorld (this w)
              (log w ++ hookLog (this w) pathname ++ [Handler (handler r) arg])).
Proof.
  intros Hrs Hbefore Ha. rewrite navigate_run, Hrs, routeLoop_declined by done.
  edestruct routeLoop_accepting as [rm' ->]; [done|]. simpl.
  by rewrite <- app_assoc.
Qed.

Lemma navigate_all_declined pathname (w : world) :
  Forall (λ r, declines r (orDefault (this w) pathname)) (routes (this w)) →
  navigate pathname w
  = (Ok (), mkWorld (this w)
              (log w ++ hookLog (this w) pathname
                     ++ [PushState "data" "home" (defaultRoute (this w))])).
Proof.
  intros Hrs. rewrite navigate_run, routeLoop_all_declined by done. simpl.
  by rewrite <- app_assoc.
Qed.

(** The routes before the first one that accepts the pathname, if any. *)
Lemma first_accepting (rs : list Route) p :
  Forall (λ r, declines r (VStr p)) rs ∨
  ∃ before r after arg,
    rs = before ++ r :: after ∧
    Forall (λ r', declines r' (VStr p)) before ∧
    accepts r (VStr p) arg.
Proof.
  induction rs as [|r rs IH]; [by left|].
  destruct (accepts_or_declines r p) as [[arg Ha]|Hd].
  - right. by exists [], r, rs, arg.
  - destruct IH as [Hall|(before & r' & after & arg & -> & Hbefore & Ha)].
    + left. by constructor.
    + right. exists (r :: before), r', after, arg. split; [done|]. split; [|done].
      by constructor.
Qed.

Lemma handlerCalls_hookLog (self : Moostaka) pathname :
  handlerCalls (hookLog self pathname) = [].
Proof. unfold hookLog. by destruct (onnavigate self). Qed.

Lemma handlerCalls_app (l k : list (event Fn)) :
  handlerCalls (l ++ k) = handlerCalls l ++ handlerCalls k.
Proof. apply omap_app. Qed.

Lemma routing_hookLog (self : Moostaka) pathname : routing (hookLog self pathname) = [].
Proof. unfold hookLog. by destruct (onnavigate self). Qed.

(** *** Registration *)

(** C9: [route] never raises and appends exactly the given pattern/handler
    pair at the end of the routes, whatever the pattern is; the routes
    registered before keep their places, and nothing else of the router
    changes. *)
Theorem route_appends_one (pat : Pattern R) (h : Fn) (w : world) :
  ∃ w', route pat h w = (Ok (), w') ∧
    routes (this w') = routes (this w) ++ [mkRoute pat h] ∧
    length (routes (this w')) = S (length (routes (this w))) ∧
    (∀ i, i < length (routes (this w)) → routes (this w') !! i = routes (this w) !! i) ∧
    routes (this w') !! length (routes (this w)) = Some (mkRoute pat h) ∧
    defaultRoute (this w') = defaultRoute (this w) ∧
    viewLocation (this w') = viewLocation (this w) ∧
    onnavigate (this w') = onnavigate (this w) ∧
    log w' = log w.
Proof.
  eexists. split; [reflexivity|]. simpl. repeat split.
  - rewrite length_app. simpl. lia.
  - intros i Hi. by apply lookup_app_l.
  - rewrite lookup_app_r by lia. by rewrite Nat.sub_diag.
Qed.

(** *** Strict matching of the segment counts *)

(** C5: a string route without a [*] segment declines every pathname whose
    number of segments differs from the pattern's: its handler is not
    called and the loop goes on to the next route. *)
Theorem count_mismatch_declines (r : Route) pat p :
  pattern r = PString pat →
  "*" ∉ split pat "/" →
  length (split pat "/") ≠ length (split p "/") →
  declines r (VStr p).
Proof.
  intros Hpat Hstar Hlen. apply (declines_string _ _ _ Hpat).
  apply not_true_is_false. rewrite checks_true_iff.
  rewrite beforeWildcard_no_wildcard by done.
  intros [Hnil|[Hl _]]; [|done]. by apply (split_not_nil pat "/").
Qed.

(** *** The order of the routes *)

(** C3: when [r] is the first route in registration order that accepts the
    pathname, [navigate] calls the handler of [r], once, and no other
    handler; whatever routes are registered after [r], accepting or not, the
    calls are the same. *)
Theorem first_match_wins before r after arg pathname (w : world) :
  routes (this w) = before ++ r :: after →
  Forall (λ r', declines r' (orDefault (this w) pathname)) before →
  accepts r (orDefault (this w) pathname) arg →
  ∃ new,
    navigate pathname w = (Ok (), mkWorld (this w) (log w ++ new)) ∧
    new = hookLog (this w) pathname ++ [Handler (handler r) arg] ∧
    handlerCalls new = [(handler r, arg)] ∧
    ∀ after',
      navigate pathname
        (mkWorld (mkMoostaka (before ++ r :: after') (defaultRoute (this w))
                             (viewLocation (this w)) (onnavigate (this w)))
                 (log w))
      = (Ok (),
         mkWorld (mkMoostaka (before ++ r :: after') (defaultRoute (this w))
                             (viewLocation (this w)) (onnavigate (this w)))
                 (log w ++ new)).
Proof.
  intros Hrs Hbefore Ha. eexists. split; [|split; [reflexivity|split]].
  - by apply (navigate_accepting before r after).
  - by rewrite handlerCalls_app, handlerCalls_hookLog.
  - intros after'.
    pose proof (navigate_accepting before r after' arg pathname
      (mkWorld (mkMoostaka (before ++ r :: after') (defaultRoute (this w))
                           (viewLocation (this w)) (onnavigate (this w)))
               (log w))) as Hrun.
    unfold orDefault, hookLog in *. simpl in Hrun. by apply Hrun.
Qed.

(** *** No exception *)

(** C8: [navigate] returns normally for every router and every pathname, with
    at most one handler called; when no route accepts the pathname no
    handler is called and the only effect after the hook is the
    [pushState] to the default route; [lowerCase] hands an undefined (or
    null) value back unchanged instead of calling a method on it. *)
Theorem navigate_never_raises pathname (w : world) :
  (∃ new, navigate pathname w = (Ok (), mkWorld (this w) (log w ++ new)) ∧
          (length (handlerCalls new) ≤ 1)%nat) ∧
  ((∀ r arg, r ∈ routes (this w) → ¬ accepts r (orDefault (this w) pathname) arg) →
   ∃ new, navigate pathname w = (Ok (), mkWorld (this w) (log w ++ new)) ∧
          new = hookLog (this w) pathname
                ++ [PushState "data" "home" (defaultRoute (this w))] ∧
          handlerCalls new = []) ∧
  (∀ w', lowerCase VUndefined w' = (Ok VUndefined, w')) ∧
  (∀ w', lowerCase VNull w' = (Ok VNull, w')).
Proof.
  destruct (orDefault_string (this w) pathname) as [p Hp].
  split; [|split; [|done]].
  - destruct (first_accepting (routes (this w)) p)
      as [Hall|(before & r & after & arg & Hrs & Hbefore & Ha)].
    + eexists. split.
      * apply navigate_all_declined. by rewrite Hp.
      * rewrite handlerCalls_app, handlerCalls_hookLog. simpl. lia.
    + eexists. split.
      * apply (navigate_accepting before r after arg); by rewrite ?Hp.
      * rewrite handlerCalls_app, handlerCalls_hookLog. simpl. lia.
  - intros Hnone. eexists. split; [|split; [reflexivity|]].
    + apply navigate_all_declined. rewrite Hp. apply Forall_forall. intros r Hr.
      destruct (accepts_or_declines r p) as [[arg Ha]|Hd]; [|done].
      destruct (Hnone r arg Hr). by rewrite Hp.
    + by rewrite handlerCalls_app, handlerCalls_hookLog.
Qed.

(** *** The default route *)

(** C7: for a falsy pathname (the empty string, [undefined], [null]) and for
    [/], [navigate] decides, calls and passes what it does for the default
    route: only the [onnavigate] hook, which is called before the
    substitution, sees the pathname as given. *)
Theorem absent_path_is_default pathname (w : world) :
  truthy pathname = false ∨ pathname = VStr "/" →
  ∃ decided,
    navigate pathname w
    = (Ok (), mkWorld (this w) (log w ++ hookLog (this w) pathname ++ decided)) ∧
    navigate (VStr (defaultRoute (this w))) w
    = (Ok (), mkWorld (this w)
                (log w ++ hookLog (this w) (VStr (defaultRoute (this w))) ++ decided)) ∧
    routing (hookLog (this w) pathname ++ decided)
    = routing (hookLog (this w) (VStr (defaultRoute (this w))) ++ decided).
Proof.
  intros Habsent.
  pose proof (orDefault_absent (this w) pathname Habsent) as Hp.
  pose proof (orDefault_idem (this w) pathname) as Hd. rewrite Hp in Hd.
  assert (∀ l k : list (event Fn), routing (l ++ k) = routing l ++ routing k) as Happ.
  { intros l k. apply List.filter_app. }
  destruct (first_accepting (routes (this w)) (defaultRoute (this w)))
    as [Hall|(before & r & after & arg & Hrs & Hbefore & Ha)].
  - exists [PushState "data" "home" (defaultRoute (this w))]. split; [|split].
    + apply navigate_all_declined. by rewrite Hp.
    + apply navigate_all_declined. by rewrite Hd.
    + by rewrite !Happ, !routing_hookLog.
  - exists [Handler (handler r) arg]. split; [|split].
    + apply (navigate_accepting before r after arg); by rewrite ?Hp.
    + apply (navigate_accepting before r after arg); by rewrite ?Hd.
    + by rewrite !Happ, !routing_hookLog.
Qed.

(** *** Regular-expression routes *)

(** C6: a regular-expression route is tested against the pathname without
    its leading [/]; when the test succeeds the handler is called with
    [{hash: segments}], the segments of that remainder, and [navigate]
    returns without looking at the routes after it; when it fails the route
    declines. *)
Theorem regexp_route_hash before r after re rest pathname (w : world) :
  pattern r = PRegExp re →
  routes (this w) = before ++ r :: after →
  Forall (λ r', declines r' (VStr (String "/" rest))) before →
  orDefault (this w) pathname = VStr (String "/" rest) →
  (regexMatch re rest = true →
     accepts r (VStr (String "/" rest)) (Hash (split rest "/")) ∧
     navigate pathname w
     = (Ok (), mkWorld (this w)
                 (log w ++ hookLog (this w) pathname
                        ++ [Handler (handler r) (Hash (split rest "/"))]))) ∧
  (regexMatch re rest = false → declines r (VStr (String "/" rest))).
Proof.
  intros Hpat Hrs Hbefore Hp. split.
  - intros Hm.
    assert (accepts r (VStr (String "/" rest)) (Hash (split rest "/"))) as Ha.
    { pose proof (accepts_regexp r re (String "/" rest) Hpat) as Ha.
      rewrite substring_tail_cons in Ha. by apply Ha. }
    split; [done|].
    apply (navigate_accepting before r after); by rewrite ?Hp.
  - intros Hm. apply (declines_regexp r re _ Hpat). by rewrite substring_tail_cons.
Qed.

Lemma substring_tail_spec p : substring p 1 None = withoutFirstCharacter p.
Proof. destruct p; [done|]. apply substring_tail_cons. Qed.

(** C10: what a regular-expression route is tested against, and what is
    split into the [hash] array, is the pathname minus its first character,
    whether that character is [/] or not. *)
Theorem regexp_strips_first_character (r : Route) re p :
  pattern r = PRegExp re →
  (∀ routeMatch w,
     tryRoute r (VStr p) routeMatch w
     = if regexMatch re (withoutFirstCharacter p)
       then (Ok (Return, routeMatch),
             mkWorld (this w)
               (log w ++ [Handler (handler r)
                            (Hash (split (withoutFirstCharacter p) "/"))]))
       else (Ok (Next, routeMatch), w)) ∧
  (∀ arg, accepts r (VStr p) arg → arg = Hash (split (withoutFirstCharacter p) "/")).
Proof.
  intros Hpat.
  assert (∀ routeMatch w,
     tryRoute r (VStr p) routeMatch w
     = if regexMatch re (withoutFirstCharacter p)
       then (Ok (Return, routeMatch),
             mkWorld (this w)
               (log w ++ [Handler (handler r)
                            (Hash (split (withoutFirstCharacter p) "/"))]))
       else (Ok (Next, routeMatch), w)) as Hrun.
  { intros rm w. by rewrite (tryRoute_regexp r re p rm w Hpat), substring_tail_spec. }
  split; [done|]. intros arg Ha.
  destruct (regexMatch re (withoutFirstCharacter p)) eqn:Hm.
  - apply (accepts_functional r (VStr p)); [done|].
    intros rm w. exists rm. by rewrite Hrun.
  - destruct (accepts_not_declines r (VStr p) arg Ha). intros rm w. by rewrite Hrun.
Qed.

(** *** Literal segments and parameters *)

Section CaseFolding.

(** What the properties need of [toLowerCase]: the empty string has no
    letter to change.  ([lowerCase] does not call it on the empty string,
    which is falsy.) *)
Hypothesis toLowerCase_empty : toLowerCase "" = "".

Lemma lowerCaseOf_string s : lowerCaseOf (VStr s) = VStr (toLowerCase s).
Proof.
  unfold lowerCaseOf. destruct (String.eqb_spec s "") as [->|_]; [|done].
  by rewrite toLowerCase_empty.
Qed.

Lemma literal_check_iff part hashParts x :
  lowerCaseOf (VStr part) = lowerCaseOf (index hashParts x)
  ↔ literalMatches part hashParts x.
Proof.
  unfold literalMatches, sameIgnoringCase, index.
  rewrite lowerCaseOf_string.
  destruct (hashParts !! x) as [seg|].
  - rewrite lowerCaseOf_string. split.
    + intros [= He]. by exists seg.
    + intros (seg' & [= <-] & He). by rewrite He.
  - unfold lowerCaseOf. split; [done|]. by intros (seg' & [=] & _).
Qed.

Lemma checks_literal routeParts hashParts :
  length routeParts = length hashParts →
  (∀ x part, beforeWildcard routeParts !! x = Some part → ¬ isParam part →
             literalMatches part hashParts x) →
  checks routeParts hashParts routeParts 0 = true.
Proof.
  intros Hlen Hlit. apply checks_true_iff. right. split; [done|].
  intros i part Hi. simpl.
  destruct (decide (isParam part)) as [?|Hp]; [by left|].
  right. apply literal_check_iff. by apply Hlit.
Qed.

(** C1, amended: a string route whose last segment is [*], against a
    pathname that passes the literal checks of the segments before the
    wildcard, is accepted when the pathname has as many segments as the
    pattern or the wildcard is the first segment of the pattern; with a
    segment before the wildcard and another number of segments it is
    declined. *)
Theorem trailing_wildcard_same_count (r : Route) pat p :
  pattern r = PString pat →
  last (split pat "/") = Some "*" →
  (∀ x part, beforeWildcard (split pat "/") !! x = Some part → ¬ isParam part →
             literalMatches part (split p "/") x) →
  (split pat "/" !! 0 = Some "*" ∨ length (split pat "/") = length (split p "/") →
   ∃ params,
     accepts r (VStr p) (Params params) ∧
     ∀ before after pathname (w : world),
       routes (this w) = before ++ r :: after →
       Forall (λ r', declines r' (VStr p)) before →
       orDefault (this w) pathname = VStr p →
       navigate pathname w
       = (Ok (), mkWorld (this w)
                   (log w ++ hookLog (this w) pathname
                          ++ [Handler (handler r) (Params params)]))) ∧
  (split pat "/" !! 0 ≠ Some "*" ∧ length (split pat "/") ≠ length (split p "/") →
   declines r (VStr p)).
Proof.
  intros Hpat _ Hlit. split.
  - intros Hcase.
    assert (checks (split pat "/") (split p "/") (split pat "/") 0 = true) as Hc.
    { destruct Hcase as [Hfirst|Hlen]; [|by apply checks_literal].
      apply checks_true_iff. left. apply beforeWildcard_nil_iff. by right. }
    pose proof (accepts_string _ _ _ Hpat Hc) as Ha.
    eexists. split; [exact Ha|].
    intros before after pathname w Hrs Hbefore Hp.
    apply (navigate_accepting before r after); by rewrite ?Hp.
  - intros [Hfirst Hlen]. apply (declines_string _ _ _ Hpat).
    apply not_true_is_false. rewrite checks_true_iff.
    intros [Hnil|[Hl _]]; [|done].
    apply beforeWildcard_nil_iff in Hnil as [Hnil|Hnil]; [|done].
    by apply (split_not_nil pat "/").
Qed.

(** C2: when a segment visited before the wildcard clears the flag, by
    the segment counts being different or by a literal comparison that
    fails, the route is declined: the [break] at the wildcard leaves the
    flag as it is, and the flag decides. *)
Theorem wildcard_keeps_flag (r : Route) pat p :
  pattern r = PString pat →
  "*" ∈ split pat "/" →
  (beforeWildcard (split pat "/") ≠ [] ∧
   length (split pat "/") ≠ length (split p "/")) ∨
  (∃ x part, beforeWildcard (split pat "/") !! x = Some part ∧ ¬ isParam part ∧
             ¬ literalMatches part (split p "/") x) →
  declines r (VStr p).
Proof.
  intros Hpat _ Hcleared. apply (declines_string _ _ _ Hpat).
  apply not_true_is_false. rewrite checks_true_iff.
  intros [Hnil|[Hlen Hall]].
  - destruct Hcleared as [[Hne _]|(x & part & Hx & _)]; [done|].
    by rewrite Hnil in Hx.
  - destruct Hcleared as [[_ Hne]|(x & part & Hx & Hp & Hlit)]; [done|].
    destruct (Hall x part Hx) as [?|Heq]; [done|].
    apply Hlit. by apply literal_check_iff.
Qed.

(** C4, amended: a string route without wildcard, against a pathname
    with as many segments whose literal segments are equal up to case, is
    accepted; the handler gets a [params] object that maps the name of a
    [:name] segment to the path segment at its index, whatever that segment
    is, when the name is not [__proto__] and no later segment of the pattern
    has the same name. *)
Theorem literal_route_binds_params (r : Route) pat p :
  pattern r = PString pat →
  "*" ∉ split pat "/" →
  length (split pat "/") = length (split p "/") →
  (∀ x part, split pat "/" !! x = Some part → ¬ isParam part →
             literalMatches part (split p "/") x) →
  ∃ params,
    accepts r (VStr p) (Params params) ∧
    (∀ before after pathname (w : world),
       routes (this w) = before ++ r :: after →
       Forall (λ r', declines r' (VStr p)) before →
       orDefault (this w) pathname = VStr p →
       navigate pathname w
       = (Ok (), mkWorld (this w)
                   (log w ++ hookLog (this w) pathname
                          ++ [Handler (handler r) (Params params)]))) ∧
    (∀ x part,
       split pat "/" !! x = Some part → isParam part →
       paramName part ≠ "__proto__" →
       (∀ y part', x < y → split pat "/" !! y = Some part' → isParam part' →
                   paramName part' ≠ paramName part) →
       ∃ seg, split p "/" !! x = Some seg ∧
              params !! paramName part = Some (VStr seg)).
Proof.
  intros Hpat Hstar Hlen Hlit.
  pose proof (beforeWildcard_no_wildcard _ Hstar) as Hbw.
  assert (accepts r (VStr p) (Params (bindings (split p "/") (split pat "/") 0 ∅))) as Ha.
  { apply (accepts_string _ _ _ Hpat). apply checks_literal; [done|]. by rewrite Hbw. }
  exists (bindings (split p "/") (split pat "/") 0 ∅). split; [done|]. split.
  - intros before after pathname w Hrs Hbefore Hp.
    apply (navigate_accepting before r after); by rewrite ?Hp.
  - intros x part Hx Hp Hproto Hlast.
    destruct (lookup_lt_is_Some_2 (split p "/") x) as [seg Hseg].
    { rewrite <- Hlen. by apply lookup_lt_Some in Hx. }
    exists seg. split; [done|].
    rewrite <- (index_lookup _ _ _ Hseg).
    apply (bindings_lookup_last _ _ 0 ∅ x); rewrite ?Hbw; done.
Qed.

End CaseFolding.

End RouterFacts.

(** ** The properties on the concrete host *)

Section Scenarios.

Import Demo.

#[local] Abbreviation accepts := (accepts Demo.toLowerCase Demo.regexMatch).
#[local] Abbreviation declines := (declines Demo.toLowerCase Demo.regexMatch).
#[local] Abbreviation literalMatches := (literalMatches Demo.toLowerCase).
#[local] Abbreviation Route := (Route handlerName regex).

Lemma demo_toLowerCase_empty : Demo.toLowerCase "" = "".
Proof. reflexivity. Qed.

(** The scenarios of the specification. *)

Example users_id_scenario :
  go "/users/42" [mkRoute (PString "/users/:id") H1]
  = (Ok (), mkWorld (this (app [mkRoute (PString "/users/:id") H1]))
              [Handler H1 (Params {["id" := VStr "42"]})]).
Proof. vm_compute. reflexivity. Qed.

Example about_scenario :
  go "/About" [mkRoute (PString "/about") H1]
  = (Ok (), mkWorld (this (app [mkRoute (PString "/about") H1]))
              [Handler H1 (Params ∅)]).
Proof. vm_compute. reflexivity. Qed.

Example no_match_scenario :
  go "/b" [mkRoute (PString "/a/:x") H1]
  = (Ok (), mkWorld (this (app [mkRoute (PString "/a/:x") H1]))
              [PushState "data" "home" "/"]).
Proof. vm_compute. reflexivity. Qed.

(** C1, as stated, fails: [/users/*] ends in a wildcard and the segments
    before it pass their checks against [/users/42/edit], but the route
    is declined, the segment counts 3 and 4 being different; with
    [/users/:id] registered before it no handler is called at all. *)
Lemma trailing_wildcard_counterexample :
  last (split "/users/*" "/") = Some "*" ∧
  (∀ x part, beforeWildcard (split "/users/*" "/") !! x = Some part → ¬ isParam part →
             literalMatches part (split "/users/42/edit" "/") x) ∧
  declines (mkRoute (PString "/users/*") H2) (VStr "/users/42/edit") ∧
  (∀ arg, ¬ accepts (mkRoute (PString "/users/*") H2) (VStr "/users/42/edit") arg) ∧
  go "/users/42/edit"
     [mkRoute (PString "/users/:id") H1; mkRoute (PString "/users/*") H2]
  = (Ok (), mkWorld (this (app [mkRoute (PString "/users/:id") H1;
                                mkRoute (PString "/users/*") H2]))
              [PushState "data" "home" "/"]).
Proof.
  assert (declines (mkRoute (PString "/users/*") H2) (VStr "/users/42/edit")) as Hd.
  { by apply (declines_string _ _ _ "/users/*"). }
  split; [reflexivity|]. split; [each_segment literal_segment|].
  split; [done|]. split; [|vm_compute; reflexivity].
  intros arg Ha. by apply (accepts_not_declines _ _ _ _ _ Ha).
Qed.

(** C4, as stated, fails, twice.  [/:a/:a] has no wildcard and as many
    segments as [/1/2], and its one literal segment is equal to that of the
    path, but the handler gets [{a: "2"}]: the first [:a], at index 1 where
    the path has [1], is not mapped to [1].  And [/:__proto__] against [/x]
    is accepted with [{}]: the assignment to [__proto__] adds no key, so
    the name is not mapped to [x]. *)
Lemma parameter_binding_counterexample :
  (("*" ∉ split "/:a/:a" "/") ∧
   length (split "/:a/:a" "/") = length (split "/1/2" "/") ∧
   (∀ x part, split "/:a/:a" "/" !! x = Some part → ¬ isParam part →
              literalMatches part (split "/1/2" "/") x) ∧
   (split "/:a/:a" "/") !! 1 = Some ":a" ∧ (isParam ":a") ∧ paramName ":a" = "a" ∧
   (split "/1/2" "/") !! 1 = Some "1" ∧
   ∃ params,
     accepts (mkRoute (PString "/:a/:a") H1) (VStr "/1/2") (Params params) ∧
     go "/1/2" [mkRoute (PString "/:a/:a") H1]
     = (Ok (), mkWorld (this (app [mkRoute (PString "/:a/:a") H1]))
                 [Handler H1 (Params params)]) ∧
     params !! paramName ":a" = Some (VStr "2") ∧
     params !! paramName ":a" ≠ Some (VStr "1")) ∧
  (("*" ∉ split "/:__proto__" "/") ∧
   length (split "/:__proto__" "/") = length (split "/x" "/") ∧
   (∀ x part, split "/:__proto__" "/" !! x = Some part → ¬ isParam part →
              literalMatches part (split "/x" "/") x) ∧
   (split "/:__proto__" "/") !! 1 = Some ":__proto__" ∧ (isParam ":__proto__") ∧
   paramName ":__proto__" = "__proto__" ∧
   (split "/x" "/") !! 1 = Some "x" ∧
   ∃ params,
     accepts (mkRoute (PString "/:__proto__") H1) (VStr "/x") (Params params) ∧
     go "/x" [mkRoute (PString "/:__proto__") H1]
     = (Ok (), mkWorld (this (app [mkRoute (PString "/:__proto__") H1]))
                 [Handler H1 (Params params)]) ∧
     params = ∅ ∧
     params !! paramName ":__proto__" ≠ Some (VStr "x")).
Proof.
  split.
  - split; [no_wildcard|].
    split; [reflexivity|]. split; [each_segment literal_segment|].
    do 4 (split; [reflexivity|]).
    exists {["a" := VStr "2"]}. split; [|split; [vm_compute; reflexivity|done]].
    by apply (accepts_string _ _ _ "/:a/:a").
  - split; [no_wildcard|].
    split; [reflexivity|]. split; [each_segment literal_segment|].
    do 4 (split; [reflexivity|]).
    exists ∅. split; [|split; [vm_compute; reflexivity|done]].
    by apply (accepts_string _ _ _ "/:__proto__").
Qed.

(** The theorems at work on the scenarios. *)

Lemma trailing_wildcard_same_count_witness :
  (∃ params, accepts (mkRoute (PString "/users/*") H2) (VStr "/users/42") (Params params)) ∧
  declines (mkRoute (PString "/users/*") H2) (VStr "/users/42/edit").
Proof.
  split.
  - destruct (trailing_wildcard_same_count Demo.toLowerCase Demo.regexMatch
                demo_toLowerCase_empty (mkRoute (PString "/users/*") H2)
                "/users/*" "/users/42") as [Hyes _];
      [reflexivity | reflexivity | each_segment literal_segment |].
    destruct Hyes as (params & Ha & _); [right; reflexivity|].
    exists params. exact Ha.
  - apply (trailing_wildcard_same_count Demo.toLowerCase Demo.regexMatch
             demo_toLowerCase_empty (mkRoute (PString "/users/*") H2)
             "/users/*" "/users/42/edit");
      [reflexivity | reflexivity | each_segment literal_segment | split; discriminate].
Defined.

Lemma wildcard_keeps_flag_witness :
  declines (mkRoute (PString "/users/*") H2) (VStr "/users/42/edit") ∧
  declines (mkRoute (PString "/users/*") H2) (VStr "/posts/42").
Proof.
  split.
  - apply (wildcard_keeps_flag Demo.toLowerCase Demo.regexMatch
             demo_toLowerCase_empty (mkRoute (PString "/users/*") H2)
             "/users/*" "/users/42/edit");
      [reflexivity | apply (bool_decide_unpack _); vm_compute; exact I |].
    left. split; discriminate.
  - apply (wildcard_keeps_flag Demo.toLowerCase Demo.regexMatch
             demo_toLowerCase_empty (mkRoute (PString "/users/*") H2)
             "/users/*" "/posts/42");
      [reflexivity | apply (bool_decide_unpack _); vm_compute; exact I |].
    right. exists 1, "users". split; [reflexivity|]. split; [discriminate|].
    intros (seg & Hseg & Hsame). vm_compute in Hseg. injection Hseg as <-.
    discriminate Hsame.
Defined.

Lemma first_match_wins_witness :
  ∃ new,
    go "/users/42" [mkRoute (PString "/users/:id") H1; mkRoute (PString "/users/*") H2]
    = (Ok (), mkWorld (this (app [mkRoute (PString "/users/:id") H1;
                                  mkRoute (PString "/users/*") H2])) new) ∧
    new = [Handler H1 (Params {["id" := VStr "42"]})] ∧
    handlerCalls new = [(H1, Params {["id" := VStr "42"]})] ∧
    accepts (mkRoute (PString "/users/*") H2) (VStr "/users/42") (Params ∅).
Proof.
  destruct (first_match_wins Demo.toLowerCase Demo.regexMatch
              [] (mkRoute (PString "/users/:id") H1) [mkRoute (PString "/users/*") H2]
              (Params {["id" := VStr "42"]}) (VStr "/users/42")
              (app [mkRoute (PString "/users/:id") H1; mkRoute (PString "/users/*") H2]))
    as (new & Hrun & Hnew & Hcalls & _).
  - reflexivity.
  - constructor.
  - by apply (accepts_string _ _ _ "/users/:id").
  - exists new. split; [exact Hrun|]. split; [exact Hnew|]. split; [exact Hcalls|].
    by apply (accepts_string _ _ _ "/users/*").
Defined.

Lemma literal_route_binds_params_witness :
  ∃ params,
    accepts (mkRoute (PString "/users/:id") H1) (VStr "/Users/42") (Params params) ∧
    params !! "id" = Some (VStr "42").
Proof.
  destruct (literal_route_binds_params Demo.toLowerCase Demo.regexMatch
              demo_toLowerCase_empty (mkRoute (PString "/users/:id") H1)
              "/users/:id" "/Users/42")
    as (params & Hacc & _ & Hbind).
  - reflexivity.
  - no_wildcard.
  - reflexivity.
  - each_segment literal_segment.
  - exists params. split; [exact Hacc|].
    destruct (Hbind 2 ":id") as (seg & Hseg & Hp);
      [reflexivity|reflexivity|discriminate| |].
    + intros y part' Hy Hpart'. do 3 (destruct y as [|y]; [lia|]).
      vm_compute in Hpart'. discriminate Hpart'.
    + vm_compute in Hseg. injection Hseg as <-. exact Hp.
Defined.

Lemma count_mismatch_declines_witness :
  declines (mkRoute (PString "/a/:x") H1) (VStr "/b").
Proof.
  apply (count_mismatch_declines Demo.toLowerCase Demo.regexMatch
           (mkRoute (PString "/a/:x") H1) "/a/:x" "/b");
    [reflexivity | no_wildcard | discriminate].
Defined.

Lemma regexp_route_hash_witness :
  accepts (mkRoute (PRegExp postRegex) H1) (VStr "/post-7") (Hash ["post-7"]) ∧
  go "/post-7" [mkRoute (PRegExp postRegex) H1; mkRoute (PString "/post-7") H2]
  = (Ok (), mkWorld (this (app [mkRoute (PRegExp postRegex) H1;
                                mkRoute (PString "/post-7") H2]))
              [Handler H1 (Hash ["post-7"])]).
Proof.
  destruct (regexp_route_hash Demo.toLowerCase Demo.regexMatch
              [] (mkRoute (PRegExp postRegex) H1) [mkRoute (PString "/post-7") H2]
              postRegex "post-7" (VStr "/post-7")
              (app [mkRoute (PRegExp postRegex) H1; mkRoute (PString "/post-7") H2]))
    as [Hyes _]; [reflexivity | reflexivity | constructor | reflexivity |].
  apply Hyes. reflexivity.
Defined.

Lemma absent_path_is_default_witness :
  ∃ decided,
    navigate Demo.toLowerCase Demo.regexMatch (VStr "/")
      (mkWorld (mkMoostaka [mkRoute (PString "/home") H1] "/home" "/views" (Some H2)) [])
    = (Ok (), mkWorld (mkMoostaka [mkRoute (PString "/home") H1] "/home" "/views" (Some H2))
                ([OnNavigate H2 (VStr "/")] ++ decided)) ∧
    navigate Demo.toLowerCase Demo.regexMatch (VStr "/home")
      (mkWorld (mkMoostaka [mkRoute (PString "/home") H1] "/home" "/views" (Some H2)) [])
    = (Ok (), mkWorld (mkMoostaka [mkRoute (PString "/home") H1] "/home" "/views" (Some H2))
                ([OnNavigate H2 (VStr "/home")] ++ decided)) ∧
    routing ([OnNavigate H2 (VStr "/")] ++ decided)
    = routing ([OnNavigate H2 (VStr "/home")] ++ decided).
Proof.
  apply (absent_path_is_default Demo.toLowerCase Demo.regexMatch (VStr "/")
           (mkWorld (mkMoostaka [mkRoute (PString "/home") H1] "/home" "/views" (Some H2)) [])).
  right. reflexivity.
Defined.

Lemma regexp_strips_first_character_witness :
  accepts (mkRoute (PRegExp postRegex) H1) (VStr "xpost-7") (Hash ["post-7"]).
Proof.
  destruct (regexp_strips_first_character Demo.toLowerCase Demo.regexMatch
              (mkRoute (PRegExp postRegex) H1) postRegex "xpost-7" eq_refl)
    as [Hrun _].
  intros routeMatch w. exists routeMatch. exact (Hrun routeMatch w).
Defined.

End Scenarios.


(** ** Facts about the other built-ins *)

Lemma startsWith_app pat s : startsWith (pat +:+ s) pat = true.
Proof. induction pat as [|a pat IH]; simpl; [done|]. by rewrite Ascii.eqb_refl. Qed.

Lemma dropChars_app pat s : dropChars (String.length pat) (pat +:+ s) = s.
Proof. induction pat as [|a pat IH]; simpl; [by destruct s|done]. Qed.

Lemma replace_unfold s searchValue replaceValue :
  replace s searchValue replaceValue
  = if startsWith s searchValue
    then replaceValue +:+ dropChars (String.length searchValue) s
    else match s with
         | EmptyString => EmptyString
         | String c s' => String c (replace s' searchValue replaceValue)
         end.
Proof. by destruct s. Qed.

Lemma indexOf_unfold s searchValue :
  indexOf s searchValue
  = if startsWith s searchValue then Some 0
    else match s with
         | EmptyString => None
         | String _ s' => S <$> indexOf s' searchValue
         end.
Proof. by destruct s. Qed.

(** An occurrence at the start is the first one. *)
Lemma replace_prefix pat s replaceValue :
  replace (pat +:+ s) pat replaceValue = replaceValue +:+ s.
Proof. by rewrite replace_unfold, startsWith_app, dropChars_app. Qed.

Lemma indexOf_cons_None c s pat :
  indexOf (String c s) pat = None →
  startsWith (String c s) pat = false ∧ indexOf s pat = None.
Proof.
  rewrite indexOf_unfold. destruct (startsWith (String c s) pat); [done|].
  by destruct (indexOf s pat).
Qed.

(** Without an occurrence nothing is replaced. *)
Lemma replace_absent s pat replaceValue :
  indexOf s pat = None → replace s pat replaceValue = s.
Proof.
  induction s as [|c s IH]; rewrite replace_unfold, indexOf_unfold.
  - by destruct (startsWith "" pat).
  - destruct (startsWith (String c s) pat); [done|].
    intros Hnone. rewrite IH; [done|]. by destruct (indexOf s pat).
Qed.

(** [.mst] does not overlap with itself: when it is put after a name in
    which it does not occur, the first occurrence is the one put there. *)
Lemma replace_mst_suffix name :
  indexOf name ".mst" = None → replace (name +:+ ".mst") ".mst" "" = name.
Proof.
  induction name as [|c name IH]; [done|].
  intros [Hstart Hnone]%indexOf_cons_None.
  change (String c name +:+ ".mst") with (String c (name +:+ ".mst")).
  rewrite replace_unfold, IH by done.
  assert (startsWith (String c (name +:+ ".mst")) ".mst" = false) as ->; [|done].
  destruct name as [|a [|b [|d name]]]; simpl in *;
    rewrite ?andb_false_r; try done.
Qed.

Lemma join_cons part part' parts sep :
  join (part :: part' :: parts) sep = part +:+ sep +:+ join (part' :: parts) sep.
Proof. done. Qed.

Lemma join_head_char c part parts sep :
  join (String c part :: parts) sep = String c (join (part :: parts) sep).
Proof. by destruct parts. Qed.

(** Joining the segments with the separator gives the string back. *)
Lemma join_split s sep : join (split s sep) (String sep "") = s.
Proof.
  induction s as [|c s IH]; [done|]. simpl.
  pose proof (split_not_nil s sep) as Hnil.
  destruct (split s sep) as [|part parts]; [done|].
  destruct (Ascii.eqb c sep) eqn:Hc.
  - apply Ascii.eqb_eq in Hc as ->. rewrite join_cons, IH. done.
  - by rewrite join_head_char, IH.
Qed.

(** No segment holds the separator. *)
Lemma split_no_separator s sep seg :
  seg ∈ split s sep → indexOf seg (String sep "") = None.
Proof.
  revert seg. induction s as [|c s IH]; intros seg; simpl.
  - by intros ->%list_elem_of_singleton.
  - destruct (Ascii.eqb_spec c sep) as [->|Hne].
    + intros [->|Hin]%elem_of_cons; [done|]. by apply IH.
    + pose proof (split_not_nil s sep) as Hnil.
      destruct (split s sep) as [|part parts]; [done|].
      intros [->|Hin]%elem_of_cons.
      * rewrite indexOf_unfold. simpl.
        destruct (Ascii.eqb_spec sep c) as [<-|_]; [done|]. simpl.
        rewrite IH; [done|]. by left.
      * apply IH. by right.
Qed.

Lemma beforeWildcard_lookup (parts : list string) i part :
  beforeWildcard parts !! i = Some part → parts !! i = Some part.
Proof.
  revert i. induction parts as [|part0 parts IH]; intros i; simpl; [done|].
  destruct (bool_decide (part0 = "*")); [done|].
  destruct i as [|i]; simpl; [done|]. apply IH.
Qed.

Lemma beforeWildcard_length (parts : list string) :
  (length (beforeWildcard parts) ≤ length parts)%nat.
Proof.
  induction parts as [|part0 parts IH]; simpl; [done|].
  destruct (bool_decide (part0 = "*")); simpl; lia.
Qed.

(** ** More facts about the router *)

Section MoreRouterFacts.

Context {Fn R : Type}.
Variable toLowerCase : string → string.
Variable regexMatch : R → string → bool.

#[local] Arguments lowerCaseOf : simpl never.
#[local] Arguments index : simpl never.

#[local] Abbreviation world := (world Fn R).
#[local] Abbreviation Route := (Route Fn R).
#[local] Abbreviation lowerCaseOf := (lowerCaseOf toLowerCase).
#[local] Abbreviation checks := (checks toLowerCase).
#[local] Abbreviation tryRoute := (tryRoute toLowerCase regexMatch).
#[local] Abbreviation navigate := (navigate toLowerCase regexMatch).
#[local] Abbreviation accepts := (accepts toLowerCase regexMatch).
#[local] Abbreviation declines := (declines toLowerCase regexMatch).

Lemma accepts_string_inv (r : Route) pat p params :
  pattern r = PString pat →
  accepts r (VStr p) (Params params) →
  checks (split pat "/") (split p "/") (split pat "/") 0 = true ∧
  params = bindings (split p "/") (split pat "/") 0 ∅.
Proof.
  intros Hpat Ha.
  destruct (checks (split pat "/") (split p "/") (split pat "/") 0) eqn:Hc.
  - split; [done|].
    pose proof (accepts_string toLowerCase regexMatch r pat p Hpat Hc) as Ha'.
    pose proof (accepts_functional _ _ _ _ _ _ Ha Ha') as Heq. by injection Heq.
  - destruct (accepts_not_declines _ _ _ _ _ Ha).
    by apply (declines_string _ _ _ pat).
Qed.

Lemma checks_ext routeParts1 routeParts2 hashParts rest1 rest2 x :
  length routeParts1 = length routeParts2 →
  beforeWildcard rest1 = beforeWildcard rest2 →
  checks routeParts1 hashParts rest1 x = checks routeParts2 hashParts rest2 x.
Proof.
  intros Hlen. revert rest2 x.
  induction rest1 as [|a rest1 IH]; intros [|b rest2] x; simpl; try done.
  - destruct (bool_decide (b = "*")); done.
  - destruct (bool_decide (a = "*")); done.
  - destruct (bool_decide (a = "*")), (bool_decide (b = "*")); try done.
    intros [= -> Hrest]. by rewrite Hlen, (IH rest2).
Qed.

Lemma bindings_ext hashParts rest1 rest2 x (params : gmap string jsval) :
  beforeWildcard rest1 = beforeWildcard rest2 →
  bindings hashParts rest1 x params = bindings hashParts rest2 x params.
Proof.
  revert rest2 x params.
  induction rest1 as [|a rest1 IH]; intros [|b rest2] x params; simpl; try done.
  - destruct (bool_decide (b = "*")); done.
  - destruct (bool_decide (a = "*")); done.
  - destruct (bool_decide (a = "*")), (bool_decide (b = "*")); try done.
    intros [= -> Hrest]. destruct (bool_decide (isParam b)); by apply IH.
Qed.

Lemma bindings_lookup_inv hashParts rest x (params : gmap string jsval) k v :
  bindings hashParts rest x params !! k = Some v →
  params !! k = Some v ∨
  ∃ i part, beforeWildcard rest !! i = Some part ∧ isParam part ∧
            paramName part = k ∧ v = index hashParts (x + i).
Proof.
  revert x params. induction rest as [|part rest IH]; intros x params; simpl; [by left|].
  destruct (bool_decide (part = "*")); [by left|].
  assert ((∃ i part', beforeWildcard rest !! i = Some part' ∧ isParam part' ∧
                      paramName part' = k ∧ v = index hashParts (S x + i)) →
          ∃ i part', (part :: beforeWildcard rest) !! i = Some part' ∧ isParam part' ∧
                     paramName part' = k ∧ v = index hashParts (x + i)) as Hshift.
  { intros (i & part' & Hi & Hp & Hk & Hv). exists (S i), part'.
    replace (x + S i) with (S x + i) by lia. done. }
  case_bool_decide as Hp; intros Hk.
  - destruct (IH _ _ Hk) as [Hin|Hlater]; [|right; by apply Hshift].
    unfold assign in Hin. case_bool_decide; [by left|].
    destruct (decide (paramName part = k)) as [Heq|Hne].
    + right. exists 0, part. rewrite Heq, lookup_insert_eq in Hin.
      rewrite Nat.add_0_r. by simplify_eq.
    + left. by rewrite lookup_insert_ne in Hin.
  - destruct (IH _ _ Hk) as [Hin|Hlater]; [by left|right; by apply Hshift].
Qed.

Lemma checks_own_pattern pat :
  checks (split pat "/") (split pat "/") (split pat "/") 0 = true.
Proof.
  apply checks_true_iff. right. split; [done|].
  intros i part Hi%beforeWildcard_lookup. right. simpl.
  unfold index. by rewrite Hi.
Qed.

(** Whatever a pathname is, [navigate] returns, and the router is as it
    was. *)
Lemma navigate_returns pathname (w : world) :
  ∃ new, navigate pathname w = (Ok (), mkWorld (this w) (log w ++ new)).
Proof.
  destruct (orDefault_string (this w) pathname) as [p Hp].
  destruct (first_accepting toLowerCase regexMatch (routes (this w)) p)
    as [Hall|(before & r & after & arg & Hrs & Hbefore & Ha)].
  - eexists. apply navigate_all_declined. by rewrite Hp.
  - eexists. apply (navigate_accepting _ _ before r after arg); by rewrite ?Hp.
Qed.

(** X1: a string route accepts the pathname that is its own pattern, whatever
    segments the pattern has. *)
Theorem pattern_accepts_itself (r : Route) pat :
  pattern r = PString pat →
  ∃ params, accepts r (VStr pat) (Params params).
Proof.
  intros Hpat. eexists. apply (accepts_string _ _ _ _ _ Hpat).
  apply checks_own_pattern.
Qed.

(** X2: a string route whose pattern begins with the segment [*] accepts
    every pathname, with no parameter; once the routes before it have
    declined, [navigate] calls its handler, and never asks [history] for the
    default route. *)
Theorem leading_wildcard_catches_all (r : Route) pat p :
  pattern r = PString pat →
  split pat "/" !! 0 = Some "*" →
  accepts r (VStr p) (Params ∅) ∧
  ∀ before after pathname (w : world),
    routes (this w) = before ++ r :: after →
    Forall (λ r', declines r' (VStr p)) before →
    orDefault (this w) pathname = VStr p →
    navigate pathname w
    = (Ok (), mkWorld (this w)
                (log w ++ hookLog (this w) pathname ++ [Handler (handler r) (Params ∅)])).
Proof.
  intros Hpat Hfirst.
  assert (accepts r (VStr p) (Params ∅)) as Ha.
  { pose proof (accepts_string toLowerCase regexMatch r pat p Hpat) as Ha.
    destruct (split pat "/") as [|part parts]; [done|].
    simpl in Hfirst. injection Hfirst as ->. by apply Ha. }
  split; [done|]. intros before after pathname w Hrs Hbefore Hp.
  apply (navigate_accepting _ _ before r after); by rewrite ?Hp.
Qed.

(** X3: the segments of a pattern after its first [*] count for the length
    check and for nothing else: two string routes with the same handler,
    whose patterns have the same segments before the first [*] and the same
    number of segments, do the same with every pathname. *)
Theorem after_wildcard_ignored (r1 r2 : Route) pat1 pat2 p routeMatch (w : world) :
  pattern r1 = PString pat1 →
  pattern r2 = PString pat2 →
  handler r1 = handler r2 →
  beforeWildcard (split pat1 "/") = beforeWildcard (split pat2 "/") →
  length (split pat1 "/") = length (split pat2 "/") →
  tryRoute r1 (VStr p) routeMatch w = tryRoute r2 (VStr p) routeMatch w.
Proof.
  intros Hpat1 Hpat2 Hh Hbw Hlen.
  rewrite (tryRoute_string _ _ _ _ _ _ _ Hpat1), (tryRoute_string _ _ _ _ _ _ _ Hpat2).
  rewrite (checks_ext _ (split pat2 "/") _ _ (split pat2 "/")) by done.
  by rewrite (bindings_ext _ _ (split pat2 "/")), Hh.
Qed.

(** X4: every value in the [params] a string route hands to its handler is a
    segment of the pathname, the one at the index of a [:name] segment of
    the pattern with that name; it is never [undefined] and holds no [/]. *)
Theorem params_are_path_segments (r : Route) pat p params k v :
  pattern r = PString pat →
  accepts r (VStr p) (Params params) →
  params !! k = Some v →
  ∃ x part seg,
    split pat "/" !! x = Some part ∧ isParam part ∧ paramName part = k ∧
    split p "/" !! x = Some seg ∧ v = VStr seg ∧ indexOf seg "/" = None.
Proof.
  intros Hpat Ha Hk.
  destruct (accepts_string_inv r pat p params Hpat Ha) as [Hc ->].
  apply bindings_lookup_inv in Hk as [Hk|(i & part & Hi & Hp & Hname & ->)]; [done|].
  apply checks_true_iff in Hc as [Hnil|[Hlen _]]; [by rewrite Hnil in Hi|].
  destruct (lookup_lt_is_Some_2 (split p "/") i) as [seg Hseg].
  { rewrite <- Hlen. pose proof (beforeWildcard_length (split pat "/")).
    apply lookup_lt_Some in Hi. lia. }
  exists i, part, seg. split; [by apply beforeWildcard_lookup|].
  do 3 (split; [done|]). split.
  - simpl. unfold index. by rewrite Hseg.
  - apply (split_no_separator p "/"). by apply list_elem_of_lookup_2 in Hseg.
Qed.

(** X5: what [navigate] does after one more [route]: a pathname that a
    route accepted is still answered by that route; a pathname that every
    route declined is answered by the new route when it accepts, and by the
    [pushState] to the default route when it declines too. *)
Theorem register_then_navigate (pat : Pattern R) (h : Fn) pathname (w : world) :
  (∀ before r after arg,
     routes (this w) = before ++ r :: after →
     Forall (λ r', declines r' (orDefault (this w) pathname)) before →
     accepts r (orDefault (this w) pathname) arg →
     navigate pathname (route pat h w).2
     = (Ok (), mkWorld (this (route pat h w).2)
                 (log w ++ hookLog (this w) pathname ++ [Handler (handler r) arg]))) ∧
  (∀ arg,
     Forall (λ r', declines r' (orDefault (this w) pathname)) (routes (this w)) →
     accepts (mkRoute pat h) (orDefault (this w) pathname) arg →
     navigate pathname (route pat h w).2
     = (Ok (), mkWorld (this (route pat h w).2)
                 (log w ++ hookLog (this w) pathname ++ [Handler h arg]))) ∧
  (Forall (λ r', declines r' (orDefault (this w) pathname)) (routes (this w)) →
   declines (mkRoute pat h) (orDefault (this w) pathname) →
   navigate pathname (route pat h w).2
   = (Ok (), mkWorld (this (route pat h w).2)
               (log w ++ hookLog (this w) pathname
                      ++ [PushState "data" "home" (defaultRoute (this w))]))).
Proof.
  split; [|split].
  - intros before r after arg Hrs Hbefore Ha.
    pose proof (navigate_accepting toLowerCase regexMatch before r
                  (after ++ [mkRoute pat h]) arg pathname (route pat h w).2) as Hrun.
    unfold orDefault, hookLog in *. simpl in *. apply Hrun; [|done|done].
    by rewrite Hrs, <- app_assoc.
  - intros arg Hall Ha.
    pose proof (navigate_accepting toLowerCase regexMatch (routes (this w))
                  (mkRoute pat h) [] arg pathname (route pat h w).2) as Hrun.
    unfold orDefault, hookLog in *. simpl in *. by apply Hrun.
  - intros Hall Hd.
    pose proof (navigate_all_declined toLowerCase regexMatch pathname
                  (route pat h w).2) as Hrun.
    unfold orDefault, hookLog in *. simpl in *. apply Hrun.
    apply Forall_app. split; [done|]. by constructor.
Qed.

(** X6: the [hash] array a regular-expression route hands to its handler,
    joined with [/], is the pathname minus its first character, and none of
    its segments holds a [/]. *)
Theorem hash_joins_to_path (r : Route) re p segments :
  pattern r = PRegExp re →
  accepts r (VStr p) (Hash segments) →
  join segments "/" = withoutFirstCharacter p ∧
  ∀ seg, seg ∈ segments → indexOf seg "/" = None.
Proof.
  intros Hpat Ha.
  destruct (regexMatch re (substring p 1 None)) eqn:Hm.
  - pose proof (accepts_regexp toLowerCase regexMatch r re p Hpat Hm) as Ha'.
    pose proof (accepts_functional _ _ _ _ _ _ Ha Ha') as Heq.
    injection Heq as ->. rewrite substring_tail_spec. split.
    + apply join_split.
    + intros seg. apply split_no_separator.
  - destruct (accepts_not_declines _ _ _ _ _ Ha).
    by apply (declines_regexp _ _ _ re).
Qed.

End MoreRouterFacts.

(** ** Facts about the page *)

Section PageFacts.

Context {Fn R : Type}.
Variable toLowerCase : string → string.
Variable regexMatch : R → string → bool.

#[local] Abbreviation world := (world Fn R).
#[local] Abbreviation navigate := (navigate toLowerCase regexMatch).
#[local] Abbreviation constructor := (@constructor Fn R).
#[local] Abbreviation onClick := (onClick toLowerCase regexMatch).

(** The default route a constructor call configures. *)
Lemma constructor_defaultRoute opts locationPathname :
  defaultRoute (this (constructor opts locationPathname))
  = match opts with
    | Some o => default "/" (optDefaultRoute o)
    | None => "/"
    end.
Proof. destruct opts as [[[d|] [v|]]|]; done. Qed.

(** X7: a router just constructed has no route: whatever the pathname,
    [navigate] calls nothing and pushes the default route that [opts]
    configures ([opts.defaultRoute] when it is defined, the empty string
    too, and [/] otherwise).  Before that the log holds what the
    constructor did: for an empty [location.pathname] a [pushState] to [/],
    whatever [opts.defaultRoute] is. *)
Theorem fresh_router_redirects opts locationPathname pathname :
  navigate pathname (constructor opts locationPathname)
  = (Ok (),
     mkWorld (this (constructor opts locationPathname))
       ((if bool_decide (locationPathname = "")
         then [PushState "data" "/" "/"] else [])
        ++ [PushState "data" "home"
              match opts with
              | Some o => default "/" (optDefaultRoute o)
              | None => "/"
              end])).
Proof.
  rewrite <- (constructor_defaultRoute opts locationPathname).
  rewrite (navigate_all_declined toLowerCase regexMatch).
  - by destruct opts as [[[d|] [v|]]|].
  - by destruct opts as [[[d|] [v|]]|].
Qed.

(** X8: a route whose pattern is the configured default route, registered
    on a new router, is the home page: for an absent pathname (the empty
    string, [undefined], [null]) and for [/], [navigate] calls its
    handler. *)
Theorem default_route_is_home opts locationPathname (h : Fn) pathname :
  truthy pathname = false ∨ pathname = VStr "/" →
  ∃ params,
    navigate pathname
      (route (PString (defaultRoute (this (constructor opts locationPathname)))) h
             (constructor opts locationPathname)).2
    = (Ok (),
       mkWorld (this (route
                        (PString (defaultRoute (this (constructor opts locationPathname))))
                        h (constructor opts locationPathname)).2)
         (log (constructor opts locationPathname) ++ [Handler h (Params params)])).
Proof.
  intros Habsent.
  set (w := constructor opts locationPathname).
  set (r := mkRoute (R:=R) (PString (defaultRoute (this w))) h).
  eexists.
  rewrite (navigate_accepting toLowerCase regexMatch [] r []
             (Params (bindings (split (defaultRoute (this w)) "/")
                               (split (defaultRoute (this w)) "/") 0 ∅))).
  - subst w r. by destruct opts as [[[d|] [v|]]|].
  - subst w r. by destruct opts as [[[d|] [v|]]|].
  - constructor.
  - rewrite orDefault_absent by done.
    replace (defaultRoute (this (route (PString (defaultRoute (this w))) h w).2))
      with (defaultRoute (this w)) by done.
    apply (accepts_string _ _ r _ _ eq_refl), checks_own_pattern.
Qed.

Lemma indexOf_https_http rest :
  indexOf rest "http://" = None → indexOf ("https://" +:+ rest) "http://" = None.
Proof. intros Hnone. simpl. change ("" +:+ rest) with rest. by rewrite Hnone. Qed.

(** What the three [replace] of the click listener leave of an absolute
    address. *)
Lemma strip_origin scheme hostname path :
  scheme = "http://" ∨ scheme = "https://" →
  indexOf (hostname +:+ path) "http://" = None →
  indexOf (hostname +:+ path) "https://" = None →
  replace (replace (replace (scheme +:+ hostname +:+ path) "http://" "") "https://" "")
          hostname ""
  = path.
Proof.
  intros [-> | ->] Hhttp Hhttps.
  - rewrite (replace_prefix "http://" (hostname +:+ path) "").
    change ("" +:+ hostname +:+ path) with (hostname +:+ path).
    rewrite (replace_absent _ "https://") by done.
    by rewrite replace_prefix.
  - rewrite (replace_absent _ "http://") by by apply indexOf_https_http.
    rewrite (replace_prefix "https://" (hostname +:+ path) "").
    change ("" +:+ hostname +:+ path) with (hostname +:+ path).
    by rewrite replace_prefix.
Qed.

(** X9: a click on a link whose [href] is [http://] or [https://], then
    its [host], then a path (with no further [http://] or [https://] in host
    and path) prevents the default action, pushes the path with the text of
    the link as title, and navigates to the path. *)
Theorem click_follows_link (target : clickTarget) scheme path (w : world) :
  matchesLink target = true →
  scheme = "http://" ∨ scheme = "https://" →
  href target = VStr (scheme +:+ host target +:+ path) →
  indexOf (host target +:+ path) "http://" = None →
  indexOf (host target +:+ path) "https://" = None →
  ∃ w',
    navigate (VStr path)
      (mkWorld (this w) (log w ++ [PushState "data" (textContent target) path]))
    = (Ok (), w') ∧
    onClick target w = (Ok true, w').
Proof.
  intros Hmatch Hscheme Hhref Hhttp Hhttps.
  destruct (navigate_returns toLowerCase regexMatch (VStr path)
              (mkWorld (this w) (log w ++ [PushState "data" (textContent target) path])))
    as [new Hrun].
  eexists. split; [exact Hrun|].
  unfold onClick. rewrite Hmatch, Hhref.
  assert (truthy (VStr (scheme +:+ host target +:+ path)) = true) as ->.
  { by destruct Hscheme as [-> | ->]. }
  unfold callReplace, bind, ret, emit. simpl.
  rewrite (strip_origin scheme (host target) path) by done.
  by rewrite Hrun.
Qed.

(** X10: a click on an element that matches but has no [href] of its own,
    as an element inside a link has not, does not follow the link: it
    prevents the default action, pushes the default route with the title
    [home], and navigates to the default route. *)
Theorem click_without_href_goes_home (target : clickTarget) (w : world) :
  matchesLink target = true →
  truthy (href target) = false →
  ∃ w',
    navigate (VStr (defaultRoute (this w)))
      (mkWorld (this w) (log w ++ [PushState "data" "home" (defaultRoute (this w))]))
    = (Ok (), w') ∧
    onClick target w = (Ok true, w').
Proof.
  intros Hmatch Hhref.
  destruct (navigate_returns toLowerCase regexMatch (VStr (defaultRoute (this w)))
              (mkWorld (this w) (log w ++ [PushState "data" "home" (defaultRoute (this w))])))
    as [new Hrun].
  eexists. split; [exact Hrun|].
  unfold onClick. rewrite Hmatch, Hhref.
  unfold bind, getThis, ret, emit. simpl. by rewrite Hrun.
Qed.

End PageFacts.

(** ** Facts about the views *)

Section ViewFacts.

Context {Fn R Node P : Type}.
Variable mustacheRender : list string → string → P → string.
Variable emptyObject : P.
Variable querySelector : string → option Node.
Variable markdownit : option (string → string).

#[local] Abbreviation browser := (browser Fn Node).
#[local] Abbreviation render := (@render Fn R Node P mustacheRender emptyObject querySelector).
#[local] Abbreviation getHtml := (@getHtml Fn R Node P mustacheRender emptyObject markdownit).
#[local] Abbreviation renderArrived := (@renderArrived Fn Node P mustacheRender).
#[local] Abbreviation getHtmlArrived := (@getHtmlArrived Fn Node P mustacheRender markdownit).

Ltac run_view :=
  unfold render, getHtml, renderArrived, getHtmlArrived, vbind, vret, vthrow,
    perform, getTags, setTags, readObject, writeObject, newObject, templateUrl;
  repeat (progress (simpl; rewrite ?lookup_insert_eq)).

Ltac run_view_at Hl :=
  unfold render, getHtml, renderArrived, getHtmlArrived, vbind, vret, vthrow,
    perform, getTags, setTags, readObject, writeObject, newObject, templateUrl;
  repeat (progress (simpl; rewrite ?Hl, ?lookup_insert_eq)).

(** What [render] and [getHtml] return and leave, given an options object
    and given none. *)
Lemma render_run_ref (self : Moostaka Fn R) element view params l callback (b : browser) :
  render self element view params (Some l) callback b
  = (Ok (renderArrived
           match element with
           | IsElement node => Some node
           | NotElement selector => querySelector selector
           end
           (default emptyObject params) l callback),
     mkBrowser
       match tags (default noOptions (objects b !! l)) with
       | None => ["{{"; "}}"]
       | Some _ => mustacheTags b
       end
       match append (default noOptions (objects b !! l)) with
       | None =>
           <[l := mkViewOptions (tags (default noOptions (objects b !! l))) (Some false)
                                (markdown (default noOptions (objects b !! l)))]>
             (objects b)
       | Some _ => objects b
       end
       (effects b ++ [Fetch (templateUrl self view)])).
Proof.
  destruct (objects b !! l) as [[[t|] [a|] m]|] eqn:Hl, params as [p|];
    unfold render, vbind, vret, perform, setTags, readObject, writeObject, templateUrl;
    simpl; rewrite ?Hl; simpl; rewrite ?Hl; done.
Qed.

Lemma render_run_new (self : Moostaka Fn R) element view params callback (b : browser) :
  render self element view params None callback b
  = (Ok (renderArrived
           match element with
           | IsElement node => Some node
           | NotElement selector => querySelector selector
           end
           (default emptyObject params) (fresh (dom (objects b))) callback),
     mkBrowser ["{{"; "}}"]
       (<[fresh (dom (objects b)) := mkViewOptions None (Some false) None]>
          (<[fresh (dom (objects b)) := noOptions]> (objects b)))
       (effects b ++ [Fetch (templateUrl self view)])).
Proof. destruct params as [p|]; by run_view. Qed.

Lemma getHtml_run_ref (self : Moostaka Fn R) view params l f (b : browser) :
  getHtml self view params (Some l) (IsFunction f) b
  = (Ok (getHtmlArrived (default emptyObject params) l f),
     mkBrowser
       match tags (default noOptions (objects b !! l)) with
       | None => ["{{"; "}}"]
       | Some t => t
       end
       match markdown (default noOptions (objects b !! l)) with
       | None =>
           <[l := mkViewOptions (tags (default noOptions (objects b !! l)))
                                (append (default noOptions (objects b !! l)))
                                (Some false)]>
             (objects b)
       | Some _ => objects b
       end
       (effects b ++ [Fetch (templateUrl self view)])).
Proof.
  destruct (objects b !! l) as [[[t|] a [m|]]|] eqn:Hl, params as [p|];
    unfold getHtml, vbind, vret, perform, setTags, readObject, writeObject, templateUrl;
    simpl; rewrite ?Hl; simpl; rewrite ?Hl; done.
Qed.

Lemma getHtml_run_new (self : Moostaka Fn R) view params f (b : browser) :
  getHtml self view params None (IsFunction f) b
  = (Ok (getHtmlArrived (default emptyObject params) (fresh (dom (objects b))) f),
     mkBrowser ["{{"; "}}"]
       (<[fresh (dom (objects b)) := mkViewOptions None None (Some false)]>
          (<[fresh (dom (objects b)) := noOptions]> (objects b)))
       (effects b ++ [Fetch (templateUrl self view)])).
Proof. destruct params as [p|]; by run_view. Qed.

Lemma renderArrived_element node params l callback template (b : browser) :
  renderArrived (Some node) params l callback template b
  = (Ok (),
     mkBrowser (mustacheTags b) (objects b)
       (effects b
        ++ (if bool_decide (append (default noOptions (objects b !! l)) = Some true)
            then [AppendInnerHTML node (mustacheRender (mustacheTags b) template params)]
            else [RemoveChildren node;
                  SetInnerHTML node (mustacheRender (mustacheTags b) template params)])
        ++ match callback with
           | IsFunction g => [CallBack g None]
           | NotFunction => []
           end)).
Proof.
  run_view. case_bool_decide; destruct callback as [g|]; simpl;
    rewrite <- ?app_assoc, ?app_nil_r; done.
Qed.

Lemma renderArrived_null params l callback template (b : browser) :
  renderArrived None params l callback template b
  = (Throw (TypeError "destination is null"), b).
Proof. run_view. by case_bool_decide. Qed.

Lemma getHtmlArrived_run params l f template (b : browser) :
  getHtmlArrived params l f template b
  = (Ok (),
     mkBrowser (mustacheTags b) (objects b)
       (effects b
        ++ [CallBack f
              (Some (mustacheRender (mustacheTags b)
                       match markdownit with
                       | Some md =>
                           if bool_decide
                                (markdown (default noOptions (objects b !! l)) = Some true)
                           then md template else template
                       | None => template
                       end
                       params))])).
Proof. run_view. destruct markdownit as [md|]; [case_bool_decide|]; done. Qed.

Lemma templateUrl_suffix (self : Moostaka Fn R) name :
  indexOf name ".mst" = None →
  templateUrl self (name +:+ ".mst") = viewLocation self +:+ "/" +:+ name +:+ ".mst" ∧
  templateUrl self name = viewLocation self +:+ "/" +:+ name +:+ ".mst".
Proof.
  intros Hnone. unfold templateUrl.
  by rewrite replace_mst_suffix, replace_absent.
Qed.

Lemma render_fetches (self : Moostaka Fn R) element view params options callback
    (b : browser) :
  ∃ k b',
    render self element view params options callback b = (Ok k, b') ∧
    effects b' = effects b ++ [Fetch (templateUrl self view)].
Proof.
  destruct options as [l|].
  - destruct (objects b !! l) as [[[t|] [a|] m]|] eqn:Hl; run_view_at Hl; eauto.
  - run_view. eauto.
Qed.

Lemma getHtml_fetches (self : Moostaka Fn R) view params options f (b : browser) :
  ∃ k b',
    getHtml self view params options (IsFunction f) b = (Ok k, b') ∧
    effects b' = effects b ++ [Fetch (templateUrl self view)].
Proof.
  destruct options as [l|].
  - destruct (objects b !! l) as [[[t|] a [m|]]|] eqn:Hl; run_view_at Hl; eauto.
  - run_view. eauto.
Qed.

Lemma fresh_lookup (m : gmap nat viewOptions) l o x y :
  m !! l = Some o →
  <[fresh (dom m) := x]> (<[fresh (dom m) := y]> m) !! l = Some o.
Proof.
  intros Hm.
  assert (fresh (dom m) ≠ l) as Hne.
  { intros Heq. apply (is_fresh (dom m)). rewrite Heq. apply elem_of_dom. by eexists. }
  by rewrite !lookup_insert_ne.
Qed.

(** X11: the [.mst] at the end of a view name is optional: for a name in
    which [.mst] does not occur, [render] and [getHtml] fetch the same
    address, [viewLocation/name.mst], whether they are given [name] or
    [name.mst]. *)
Theorem view_suffix_is_optional (self : Moostaka Fn R) element name params options
    callback f (b : browser) :
  indexOf name ".mst" = None →
  effects (render self element name params options callback b).2
  = effects b ++ [Fetch (viewLocation self +:+ "/" +:+ name +:+ ".mst")] ∧
  effects (render self element (name +:+ ".mst") params options callback b).2
  = effects b ++ [Fetch (viewLocation self +:+ "/" +:+ name +:+ ".mst")] ∧
  effects (getHtml self name params options (IsFunction f) b).2
  = effects b ++ [Fetch (viewLocation self +:+ "/" +:+ name +:+ ".mst")] ∧
  effects (getHtml self (name +:+ ".mst") params options (IsFunction f) b).2
  = effects b ++ [Fetch (viewLocation self +:+ "/" +:+ name +:+ ".mst")].
Proof.
  intros Hnone. destruct (templateUrl_suffix self name Hnone) as [Hwith Hwithout].
  repeat split.
  - destruct (render_fetches self element name params options callback b)
      as (k & b' & Hrun & Heff). rewrite Hrun. simpl. by rewrite Heff, Hwithout.
  - destruct (render_fetches self element (name +:+ ".mst") params options callback b)
      as (k & b' & Hrun & Heff). rewrite Hrun. simpl. by rewrite Heff, Hwith.
  - destruct (getHtml_fetches self name params options f b) as (k & b' & Hrun & Heff).
    rewrite Hrun. simpl. by rewrite Heff, Hwithout.
  - destruct (getHtml_fetches self (name +:+ ".mst") params options f b)
      as (k & b' & Hrun & Heff). rewrite Hrun. simpl. by rewrite Heff, Hwith.
Qed.

(** X12: [getHtml] without a function as callback raises a [TypeError] and
    does nothing else: no request, [Mustache.tags] and the options object
    as they were.  [render] needs no callback: it sends its request, and when
    the template arrives it writes the rendered template to the element,
    added to its content when [append] of the options object is [true] then
    and in the place of its children otherwise, and calls nothing.  When the
    template arrives right after the call, what decides is the [append] the
    options were given. *)
Theorem getHtml_requires_callback (self : Moostaka Fn R) node view params options
    (b : browser) :
  getHtml self view params options NotFunction b
  = (Throw (TypeError "callback is not a function"), b) ∧
  ∃ k b',
    render self (IsElement node) view params options NotFunction b = (Ok k, b') ∧
    effects b' = effects b ++ [Fetch (templateUrl self view)] ∧
    (∀ template b0,
       k template b0
       = (Ok (),
          mkBrowser (mustacheTags b0) (objects b0)
            (effects b0
             ++ if bool_decide
                     (append (default noOptions
                                (objects b0 !! match options with
                                               | Some l => l
                                               | None => fresh (dom (objects b))
                                               end))
                      = Some true)
                then [AppendInnerHTML node
                        (mustacheRender (mustacheTags b0) template
                           (default emptyObject params))]
                else [RemoveChildren node;
                      SetInnerHTML node
                        (mustacheRender (mustacheTags b0) template
                           (default emptyObject params))]))) ∧
    (∀ template,
       k template b'
       = (Ok (),
          mkBrowser (mustacheTags b') (objects b')
            (effects b'
             ++ if bool_decide
                     (append match options with
                             | Some l => default noOptions (objects b !! l)
                             | None => noOptions
                             end
                      = Some true)
                then [AppendInnerHTML node
                        (mustacheRender (mustacheTags b') template
                           (default emptyObject params))]
                else [RemoveChildren node;
                      SetInnerHTML node
                        (mustacheRender (mustacheTags b') template
                           (default emptyObject params))]))).
Proof.
  split; [done|].
  destruct options as [l|].
  - rewrite render_run_ref.
    do 2 eexists. split; [reflexivity|]. split; [reflexivity|]. split.
    + intros template b0. by rewrite renderArrived_element, app_nil_r.
    + intros template. rewrite renderArrived_element, app_nil_r. simpl.
      destruct (append (default noOptions (objects b !! l))) as [a|] eqn:Ha; simpl.
      * by rewrite Ha.
      * by rewrite lookup_insert_eq.
  - rewrite render_run_new.
    do 2 eexists. split; [reflexivity|]. split; [reflexivity|]. split.
    + intros template b0. by rewrite renderArrived_element, app_nil_r.
    + intros template. rewrite renderArrived_element, app_nil_r. simpl.
      by rewrite lookup_insert_eq.
Qed.

(** X13: [render] does not install the [tags] of its options: with
    [options.tags] defined it leaves [Mustache.tags] as it is, and the
    template, when it arrives, is rendered with the tags that were installed
    before the call.  [getHtml] installs [options.tags] and its template is
    rendered with them. *)
Theorem render_keeps_installed_tags (self : Moostaka Fn R) node view params l o t
    callback f template (b : browser) :
  objects b !! l = Some o →
  tags o = Some t →
  (∃ k b1,
     render self (IsElement node) view params (Some l) callback b = (Ok k, b1) ∧
     mustacheTags b1 = mustacheTags b ∧
     k template b1
     = (Ok (),
        mkBrowser (mustacheTags b1) (objects b1)
          (effects b1
           ++ (if bool_decide (append o = Some true)
               then [AppendInnerHTML node
                       (mustacheRender (mustacheTags b) template
                          (default emptyObject params))]
               else [RemoveChildren node;
                     SetInnerHTML node
                       (mustacheRender (mustacheTags b) template
                          (default emptyObject params))])
           ++ match callback with
              | IsFunction g => [CallBack g None]
              | NotFunction => []
              end))) ∧
  (∃ k b1,
     getHtml self view params (Some l) (IsFunction f) b = (Ok k, b1) ∧
     mustacheTags b1 = t ∧
     k template b1
     = (Ok (),
        mkBrowser (mustacheTags b1) (objects b1)
          (effects b1
           ++ [CallBack f
                 (Some (mustacheRender t
                          match markdownit with
                          | Some md =>
                              if bool_decide (markdown o = Some true)
                              then md template else template
                          | None => template
                          end
                          (default emptyObject params)))]))).
Proof.
  intros Hl Ht. split.
  - rewrite render_run_ref, Hl. simpl. rewrite Ht.
    do 2 eexists. split; [reflexivity|]. split; [reflexivity|].
    rewrite renderArrived_element. simpl.
    destruct (append o) as [a|] eqn:Ha; simpl.
    + rewrite Hl. simpl. by rewrite Ha.
    + by rewrite lookup_insert_eq.
  - rewrite getHtml_run_ref, Hl. simpl. rewrite Ht.
    do 2 eexists. split; [reflexivity|]. split; [reflexivity|].
    rewrite getHtmlArrived_run. simpl.
    destruct (markdown o) as [m|] eqn:Hm; simpl.
    + rewrite Hl. simpl. by rewrite Hm.
    + by rewrite lookup_insert_eq.
Qed.

(** X14: [Mustache.tags] is shared by all calls: when [getHtml] is called
    with its own tags and, before its template arrives, [render] is called
    without options, the template of [getHtml] is rendered with the default
    tags that [render] installed, not with those [getHtml] was given. *)
Theorem later_call_replaces_the_tags (self : Moostaka Fn R) element view1 view2
    params1 params2 l o t f callback template (b : browser) :
  objects b !! l = Some o →
  tags o = Some t →
  ∃ k1 b1 k2 b2,
    getHtml self view1 params1 (Some l) (IsFunction f) b = (Ok k1, b1) ∧
    mustacheTags b1 = t ∧
    render self element view2 params2 None callback b1 = (Ok k2, b2) ∧
    k1 template b2
    = (Ok (),
       mkBrowser (mustacheTags b2) (objects b2)
         (effects b2
          ++ [CallBack f
                (Some (mustacheRender ["{{"; "}}"]
                         match markdownit with
                         | Some md =>
                             if bool_decide (markdown o = Some true)
                             then md template else template
                         | None => template
                         end
                         (default emptyObject params1)))])).
Proof.
  intros Hl Ht.
  rewrite getHtml_run_ref, Hl. simpl. rewrite Ht.
  do 2 eexists. rewrite render_run_new.
  do 2 eexists. split; [reflexivity|]. split; [reflexivity|]. split; [reflexivity|].
  rewrite getHtmlArrived_run. simpl.
  destruct (markdown o) as [m|] eqn:Hm; simpl.
  - rewrite (fresh_lookup _ _ _ _ _ Hl). simpl. by rewrite Hm.
  - by rewrite (fresh_lookup _ _ _ _ _ (lookup_insert_eq _ _ _)).
Qed.

(** X15: when the selector given to [render] finds no element, [render]
    still sends its request and returns; the failure comes when the template
    arrives: a [TypeError], with nothing written and the callback not
    called. *)
Theorem render_without_destination (self : Moostaka Fn R) selector view params options
    callback (b : browser) :
  querySelector selector = None →
  ∃ k b1,
    render self (NotElement selector) view params options callback b = (Ok k, b1) ∧
    effects b1 = effects b ++ [Fetch (templateUrl self view)] ∧
    ∀ template b', k template b' = (Throw (TypeError "destination is null"), b').
Proof.
  intros Hsel. destruct options as [l|].
  - rewrite render_run_ref, Hsel.
    do 2 eexists. split; [reflexivity|]. split; [reflexivity|].
    intros template b'. apply renderArrived_null.
  - rewrite render_run_new, Hsel.
    do 2 eexists. split; [reflexivity|]. split; [reflexivity|].
    intros template b'. apply renderArrived_null.
Qed.

End ViewFacts.

(** ** The further properties on the concrete hosts *)

Section MoreScenarios.

Import Demo.

#[local] Abbreviation accepts := (accepts Demo.toLowerCase Demo.regexMatch).
#[local] Abbreviation declines := (declines Demo.toLowerCase Demo.regexMatch).
#[local] Abbreviation tryRoute := (tryRoute Demo.toLowerCase Demo.regexMatch).
#[local] Abbreviation navigate := (navigate Demo.toLowerCase Demo.regexMatch).
#[local] Abbreviation onClick := (onClick Demo.toLowerCase Demo.regexMatch).
#[local] Abbreviation render :=
  (render (Fn:=handlerName) (R:=regex) DemoViews.mustacheRender [] DemoViews.querySelector).
#[local] Abbreviation getHtml :=
  (getHtml (Fn:=handlerName) (R:=regex) (Node:=string) DemoViews.mustacheRender [] None).

Lemma pattern_accepts_itself_witness :
  ∃ params, accepts (mkRoute (PString "/users/:id") H1) (VStr "/users/:id") (Params params).
Proof.
  exact (pattern_accepts_itself Demo.toLowerCase Demo.regexMatch
           (mkRoute (PString "/users/:id") H1) "/users/:id" eq_refl).
Defined.

Lemma leading_wildcard_catches_all_witness :
  accepts (mkRoute (PString "*") H2) (VStr "/any/where") (Params ∅) ∧
  go "/any/where" [mkRoute (PString "/about") H1; mkRoute (PString "*") H2]
  = (Ok (), mkWorld (this (app [mkRoute (PString "/about") H1; mkRoute (PString "*") H2]))
              [Handler H2 (Params ∅)]).
Proof.
  destruct (leading_wildcard_catches_all Demo.toLowerCase Demo.regexMatch
              (mkRoute (PString "*") H2) "*" "/any/where" eq_refl eq_refl)
    as [Ha Hnavigate].
  split; [exact Ha|].
  apply (Hnavigate [mkRoute (PString "/about") H1] [] (VStr "/any/where")
           (app [mkRoute (PString "/about") H1; mkRoute (PString "*") H2]));
    [reflexivity| |reflexivity].
  constructor; [|constructor]. by apply (declines_string _ _ _ "/about").
Defined.

Lemma after_wildcard_ignored_witness :
  tryRoute (mkRoute (PString "/a/*/b") H1) (VStr "/a/x/y") false (app [])
  = tryRoute (mkRoute (PString "/a/*/c") H1) (VStr "/a/x/y") false (app []).
Proof.
  apply (after_wildcard_ignored Demo.toLowerCase Demo.regexMatch
           (mkRoute (PString "/a/*/b") H1) (mkRoute (PString "/a/*/c") H1)
           "/a/*/b" "/a/*/c"); reflexivity.
Defined.

Lemma params_are_path_segments_witness :
  ∃ x part seg,
    split "/users/:id" "/" !! x = Some part ∧ isParam part ∧ paramName part = "id" ∧
    split "/Users/42" "/" !! x = Some seg ∧ VStr "42" = VStr seg ∧ indexOf seg "/" = None.
Proof.
  apply (params_are_path_segments Demo.toLowerCase Demo.regexMatch
           (mkRoute (PString "/users/:id") H1) "/users/:id" "/Users/42"
           {["id" := VStr "42"]} "id" (VStr "42")); [reflexivity| |reflexivity].
  by apply (accepts_string _ _ _ "/users/:id").
Defined.

Lemma hash_joins_to_path_witness :
  join ["post-7"] "/" = withoutFirstCharacter "/post-7" ∧
  ∀ seg, seg ∈ ["post-7"] → indexOf seg "/" = None.
Proof.
  apply (hash_joins_to_path Demo.toLowerCase Demo.regexMatch
           (mkRoute (PRegExp postRegex) H1) postRegex "/post-7" ["post-7"]);
    [reflexivity|].
  by apply (accepts_regexp _ _ _ postRegex).
Defined.

Lemma default_route_is_home_witness :
  ∃ params,
    navigate (VStr "/")
      (route (PString "/home") H1
             (constructor (Some (mkOptions (Some "/home") None)) "/")).2
    = (Ok (),
       mkWorld (mkMoostaka [mkRoute (PString "/home") H1] "/home" "/views" None)
         [Handler H1 (Params params)]).
Proof.
  apply (default_route_is_home Demo.toLowerCase Demo.regexMatch
           (Some (mkOptions (Some "/home") None)) "/" H1 (VStr "/")).
  right. reflexivity.
Defined.

Lemma click_follows_link_witness :
  ∃ w',
    navigate (VStr "/users/42")
      (mkWorld (this (app [mkRoute (PString "/users/:id") H1]))
         [PushState "data" "Ann" "/users/42"])
    = (Ok (), w') ∧
    onClick (mkTarget true (VStr "https://example.com/users/42") "example.com" "Ann")
      (app [mkRoute (PString "/users/:id") H1])
    = (Ok true, w').
Proof.
  apply (click_follows_link Demo.toLowerCase Demo.regexMatch
           (mkTarget true (VStr "https://example.com/users/42") "example.com" "Ann")
           "https://" "/users/42" (app [mkRoute (PString "/users/:id") H1]));
    [reflexivity | right; reflexivity | reflexivity | reflexivity | reflexivity].
Defined.

Lemma click_without_href_goes_home_witness :
  ∃ w',
    navigate (VStr "/")
      (mkWorld (this (app [mkRoute (PString "/") H1])) [PushState "data" "home" "/"])
    = (Ok (), w') ∧
    onClick (mkTarget true VUndefined "" "icon") (app [mkRoute (PString "/") H1])
    = (Ok true, w').
Proof.
  apply (click_without_href_goes_home Demo.toLowerCase Demo.regexMatch
           (mkTarget true VUndefined "" "icon") (app [mkRoute (PString "/") H1]));
    reflexivity.
Defined.

Lemma view_suffix_is_optional_witness :
  effects (render DemoViews.router (NotElement "#content") "home" None None NotFunction
             DemoViews.start).2
  = [Fetch "/views/home.mst"] ∧
  effects (render DemoViews.router (NotElement "#content") "home.mst" None None NotFunction
             DemoViews.start).2
  = [Fetch "/views/home.mst"] ∧
  effects (getHtml DemoViews.router "home" None None (IsFunction H1) DemoViews.start).2
  = [Fetch "/views/home.mst"] ∧
  effects (getHtml DemoViews.router "home.mst" None None (IsFunction H1) DemoViews.start).2
  = [Fetch "/views/home.mst"].
Proof.
  apply (view_suffix_is_optional DemoViews.mustacheRender [] DemoViews.querySelector None
           DemoViews.router (NotElement "#content") "home" None None NotFunction H1
           DemoViews.start).
  reflexivity.
Defined.

Lemma render_keeps_installed_tags_witness :
  (∃ k b1,
     render DemoViews.router (IsElement "content") "home" (Some ["Ann"]) (Some 0)
       (IsFunction H1) DemoViews.startWithOptions
     = (Ok k, b1) ∧
     mustacheTags b1 = ["{{"; "}}"] ∧
     k "Hello" b1
     = (Ok (),
        mkBrowser (mustacheTags b1) (objects b1)
          (effects b1
           ++ [RemoveChildren "content"; SetInnerHTML "content" "{{,}}|Hello|Ann"]
           ++ [CallBack H1 None]))) ∧
  (∃ k b1,
     getHtml DemoViews.router "home" (Some ["Ann"]) (Some 0) (IsFunction H2)
       DemoViews.startWithOptions
     = (Ok k, b1) ∧
     mustacheTags b1 = ["<%"; "%>"] ∧
     k "Hello" b1
     = (Ok (),
        mkBrowser (mustacheTags b1) (objects b1)
          (effects b1 ++ [CallBack H2 (Some "<%,%>|Hello|Ann")]))).
Proof.
  apply (render_keeps_installed_tags DemoViews.mustacheRender [] DemoViews.querySelector
           None DemoViews.router "content" "home" (Some ["Ann"]) 0 DemoViews.ownTags
           ["<%"; "%>"] (IsFunction H1) H2 "Hello" DemoViews.startWithOptions);
    reflexivity.
Defined.

Lemma later_call_replaces_the_tags_witness :
  ∃ k1 b1 k2 b2,
    getHtml DemoViews.router "first" (Some ["Ann"]) (Some 0) (IsFunction H1)
      DemoViews.startWithOptions
    = (Ok k1, b1) ∧
    mustacheTags b1 = ["<%"; "%>"] ∧
    render DemoViews.router (IsElement "content") "second" None None NotFunction b1
    = (Ok k2, b2) ∧
    k1 "Hello" b2
    = (Ok (),
       mkBrowser (mustacheTags b2) (objects b2)
         (effects b2 ++ [CallBack H1 (Some "{{,}}|Hello|Ann")])).
Proof.
  apply (later_call_replaces_the_tags DemoViews.mustacheRender [] DemoViews.querySelector
           None DemoViews.router (IsElement "content") "first" "second" (Some ["Ann"]) None
           0 DemoViews.ownTags ["<%"; "%>"] H1 NotFunction "Hello"
           DemoViews.startWithOptions);
    reflexivity.
Defined.

Lemma render_without_destination_witness :
  ∃ k b1,
    render DemoViews.router (NotElement "#missing") "home" None None (IsFunction H1)
      DemoViews.start
    = (Ok k, b1) ∧
    effects b1 = [Fetch "/views/home.mst"] ∧
    ∀ template b', k template b' = (Throw (TypeError "destination is null"), b').
Proof.
  apply (render_without_destination DemoViews.mustacheRender [] DemoViews.querySelector
           DemoViews.router "#missing" "home" None None (IsFunction H1) DemoViews.start).
  reflexivity.
Defined.

End MoreScenarios.
